(** * clusterImages.py: selection, gap detection and sampling over a
    pixplot clustering result.

    A shallow embedding of [src/clusterImages.py].  Python values are kept
    as the script has them: filenames are strings, a page number is an
    integer or a missing value, a pandas frame is the list of its rows, a
    raised exception is a [Raise] result, and the one loop of the script
    that can run forever takes fuel. *)

From Stdlib Require Import ZArith List String Ascii Bool Lia Permutation Sorted.
From Stdlib Require Import DecimalString.
Import ListNotations.
Open Scope string_scope.
Open Scope Z_scope.

(** ** Exceptions *)

Inductive exn := IndexError | ValueError | TypeError.

Inductive result (A : Type) :=
| Ok (a : A)
| Raise (e : exn).
Arguments Ok {A} a.
Arguments Raise {A} e.

Definition bind {A B} (r : result A) (k : A -> result B) : result B :=
  match r with
  | Ok a => k a
  | Raise e => Raise e
  end.

Notation "x <- r ;; k" := (bind r (fun x => k))
  (at level 61, r at next level, right associativity).

(** ** Regular expressions

    The two patterns of the script use literals, the class [[0-9]], the dot
    and fixed repetition only, so a pattern is a sequence of atoms, one per
    character consumed. *)

Module Re.

Inductive atom :=
| Lit (c : ascii)
| Digit
| Dot.

Definition pattern := list atom.

Definition is_digit (c : ascii) : bool :=
  let n := N_of_ascii c in ((48 <=? n) && (n <=? 57))%N.

Definition newline : ascii := ascii_of_N 10.

Definition atom_matches (a : atom) (c : ascii) : bool :=
  match a with
  | Lit l => Ascii.eqb c l
  | Digit => is_digit c
  | Dot => negb (Ascii.eqb c newline)
  end.

(** The text matched by [p] at the start of [s]. *)
Fixpoint match_here (p : pattern) (s : string) : option string :=
  match p with
  | [] => Some ""
  | a :: p' =>
      match s with
      | EmptyString => None
      | String c s' =>
          if atom_matches a c
          then option_map (String c) (match_here p' s')
          else None
      end
  end.

(** [re.search(p, s)], then [.group()]: the leftmost match. *)
Fixpoint search (p : pattern) (s : string) : option string :=
  match match_here p s with
  | Some m => Some m
  | None =>
      match s with
      | EmptyString => None
      | String _ s' => search p s'
      end
  end.

Definition lits (s : string) : pattern := map Lit (list_ascii_of_string s).

(** [p{n}] *)
Definition times (n : nat) (a : atom) : pattern := repeat a n.

End Re.

(** [r'[0-9]{3}.jpg'] *)
Definition page_nr_pattern : Re.pattern :=
  (Re.times 3 Re.Digit ++ [Re.Dot] ++ Re.lits "jpg")%list.

(** [r'HGB_[0-9]{1}_[0-9]{3}_[0-9]{3}'] *)
Definition doc_title_pattern : Re.pattern :=
  (Re.lits "HGB_" ++ Re.times 1 Re.Digit ++ Re.lits "_"
     ++ Re.times 3 Re.Digit ++ Re.lits "_" ++ Re.times 3 Re.Digit)%list.

(** ** Filenames *)

Definition digit_value (c : ascii) : Z := Z.of_N (N_of_ascii c) - 48.

(** [int(s)] on a string of decimal digits; [None] stands for the
    [ValueError] raised otherwise (the empty string included). *)
Fixpoint int_digits (acc : Z) (s : string) : option Z :=
  match s with
  | EmptyString => Some acc
  | String c s' =>
      if Re.is_digit c then int_digits (10 * acc + digit_value c) s' else None
  end.

Definition int (s : string) : option Z :=
  match s with
  | EmptyString => None
  | _ => int_digits 0 s
  end.

(** [get_page_nr]: any exception, the missing match included, gives [None]. *)
Definition get_page_nr (filename : string) : option Z :=
  match Re.search page_nr_pattern filename with
  | Some m => int (substring 0 3 m)
  | None => None
  end.

Definition get_doc_title (filename : string) : option string :=
  Re.search doc_title_pattern filename.

(** [str(n)] for an integer. *)
Definition str_nat (n : N) : string := NilZero.string_of_uint (N.to_uint n).

Fixpoint zeros (n : nat) : string :=
  match n with
  | O => ""
  | S n' => String "0" (zeros n')
  end.

Definition zfill (width : nat) (s : string) : string :=
  zeros (width - String.length s)%nat ++ s.

(** [f'{n:03}'] for an integer: zero padding to width 3, after the sign. *)
Definition format_03 (n : Z) : string :=
  if n <? 0 then "-" ++ zfill 2 (str_nat (Z.abs_N n))
  else zfill 3 (str_nat (Z.abs_N n)).

(** [f'{x}'] for a string or [None]. *)
Definition str_title (doc_title : option string) : string :=
  match doc_title with
  | Some t => t
  | None => "None"
  end.

(** [get_filename]: formatting [None] with the spec [03] raises
    [TypeError], which the [except] turns into [None]; formatting a
    [doc_title] of [None] raises nothing. *)
Definition get_filename (doc_title : option string) (page_nr : option Z)
  : option string :=
  match page_nr with
  | Some n => Some (str_title doc_title ++ "_" ++ format_03 n ++ ".jpg")
  | None => None
  end.

(** ** Frames

    A pandas frame is the list of its rows; [imagelist] starts with the one
    column [filename]. *)

(** The row a positional index denotes in a frame of [n] rows: pandas
    counts a negative index from the end. *)
Definition position (n : nat) (i : Z) : option nat :=
  if (0 <=? i) && (i <? Z.of_nat n) then Some (Z.to_nat i)
  else if (- Z.of_nat n <=? i) && (i <? 0) then Some (Z.to_nat (Z.of_nat n + i))
  else None.

(** [frame.iloc[positions]]: the rows at the given positions, in the order
    and with the multiplicity of [positions]; [IndexError] when a position is
    out of bounds. *)
Fixpoint iloc {A} (frame : list A) (positions : list Z) : result (list A) :=
  match positions with
  | [] => Ok []
  | i :: rest =>
      match position (List.length frame) i with
      | None => Raise IndexError
      | Some k =>
          match nth_error frame k with
          | None => Raise IndexError
          | Some r => rows <- iloc frame rest ;; Ok (r :: rows)
          end
      end
  end.

(** ** Cluster resolver *)

Record cluster := { label : string; images : list Z }.

Definition hotspot := list cluster.

(** [hotspot[hotspot['label'] == c]['images'].values[0]] *)
Definition cluster_images (h : hotspot) (c : string) : result (list Z) :=
  match find (fun r => (label r =? c)%string) h with
  | Some r => Ok (images r)
  | None => Raise IndexError
  end.

(** The [for] loop of [get_selected_images]: [image_index += ...]. *)
Fixpoint collect_index (h : hotspot) (cluster_of_interest : list string)
    (image_index : list Z) : result (list Z) :=
  match cluster_of_interest with
  | [] => Ok image_index
  | c :: rest =>
      idx <- cluster_images h c ;;
      collect_index h rest (image_index ++ idx)
  end.

Definition get_selected_images (h : hotspot) (imagelist : list string)
    (cluster_of_interest : list string) : result (list string) :=
  image_index <- collect_index h cluster_of_interest [] ;;
  iloc imagelist image_index.

(** ** Page numbers in a column

    A number of the [page_nr] column is an integer or, once a missing value
    has turned the column into floats, an integer-valued float or NaN; the
    arithmetic of the script does not tell the first two apart.  A cell is
    such a number or Python's [None]. *)

Inductive number :=
| Int (z : Z)
| NaN.

Definition cell := option number.

(** What [frame.apply(..., axis=1)] makes of the values a function
    returned: all [None] stays a column of [None], otherwise [None] becomes
    NaN. *)
Definition page_column (values : list (option Z)) : list cell :=
  if forallb (fun v => match v with None => true | Some _ => false end) values
  then map (fun _ => None) values
  else map (fun v => match v with
                     | Some z => Some (Int z)
                     | None => Some NaN
                     end) values.

Record image := {
  filename : string;
  doc_title : option string;
  page_nr : cell
}.

(** The two [apply] calls that add the columns [doc_title] and [page_nr]. *)
Definition annotate (filenames : list string) : list image :=
  map (fun fp => {| filename := fst fp;
                    doc_title := get_doc_title (fst fp);
                    page_nr := snd fp |})
      (combine filenames (page_column (map get_page_nr filenames))).

(** ** Sorting and grouping *)

Section Sort.
Context {A : Type} (leb : A -> A -> bool).

Fixpoint insert (x : A) (l : list A) : list A :=
  match l with
  | [] => [x]
  | y :: l' => if leb x y then x :: l else y :: insert x l'
  end.

Definition sort (l : list A) : list A := fold_right insert [] l.
End Sort.

Definition present {A} (l : list (option A)) : list A :=
  flat_map (fun o => match o with Some a => [a] | None => [] end) l.

(** The group keys of [groupby]: the distinct values that are not missing,
    in ascending order. *)
Definition group_keys (keys : list (option string)) : list string :=
  sort String.leb (nodup string_dec (present keys)).

Definition has_key {A} (key : A -> option string) (k : string) (r : A) : bool :=
  match key r with
  | Some k' => (k' =? k)%string
  | None => false
  end.

(** [frame.groupby(key)]: one group per key, rows in frame order; rows whose
    key is missing are in no group. *)
Definition groupby {A} (key : A -> option string) (frame : list A)
  : list (string * list A) :=
  map (fun k => (k, filter (has_key key k) frame)) (group_keys (map key frame)).

Definition integers (pages : list cell) : list Z :=
  flat_map (fun c => match c with Some (Int z) => [z] | _ => [] end) pages.

Definition is_missing (c : cell) : bool :=
  match c with
  | Some (Int _) => false
  | _ => true
  end.

(** The [page_nr] column after [group.sort_values('page_nr')]: ascending,
    missing values last. *)
Definition sort_values (pages : list cell) : list cell :=
  (map (fun z => Some (Int z)) (sort Z.leb (integers pages))
     ++ filter is_missing pages)%list.

(** ** Document index *)

(** [.max()] of a group: missing values are skipped, and a group without
    any value has a missing maximum. *)
Definition column_max (pages : list cell) : option Z :=
  fold_left (fun acc z => Some (match acc with
                                | Some m => Z.max m z
                                | None => z
                                end))
            (integers pages) None.

(** [imagelist.groupby('doc_title')['page_nr'].max()]: one entry per group
    key. *)
Definition n_pages (imagelist : list image) : list (string * option Z) :=
  map (fun g => (fst g, column_max (map page_nr (snd g))))
      (groupby doc_title imagelist).

(** The column [nr_of_pages] that [join(n_pages, on='doc_title')] adds. *)
Definition nr_of_pages (table : list (string * option Z)) (r : image)
  : option Z :=
  match doc_title r with
  | Some t =>
      match find (fun e => (fst e =? t)%string) table with
      | Some e => snd e
      | None => None
      end
  | None => None
  end.

(** [image_selected[image_selected['page_nr'] == image_selected['nr_of_pages']]]:
    a missing value equals nothing. *)
Definition image_selected_last (table : list (string * option Z))
    (image_selected : list image) : list image :=
  filter (fun r => match page_nr r, nr_of_pages table r with
                   | Some (Int p), Some m => p =? m
                   | _, _ => false
                   end) image_selected.

(** ** Gap detector *)

Definition number_eqb (a b : number) : bool :=
  match a, b with
  | Int x, Int y => x =? y
  | _, _ => false
  end.

(** [c == n] for a cell and a number: NaN and [None] equal no number. *)
Definition cell_is (c : cell) (n : number) : bool :=
  match c with
  | Some m => number_eqb m n
  | None => false
  end.

Definition add1 (n : number) : number :=
  match n with
  | Int z => Int (z + 1)
  | NaN => NaN
  end.

(** [not x]: [None] and zero are false, NaN is true. *)
Definition falsy (c : cell) : bool :=
  match c with
  | None => true
  | Some (Int z) => z =? 0
  | Some NaN => false
  end.

(** A row of [image_between_selected] before its filename is added. *)
Definition gap := (string * number)%type.

(** [while page_nr != page_nr_current: append; page_nr += 1].  [None]
    when the fuel runs out. *)
Fixpoint while_between (fuel : nat) (name : string) (page_nr : number)
    (page_nr_current : cell) (between : list gap) : option (list gap) :=
  match fuel with
  | O => None
  | S fuel' =>
      if cell_is page_nr_current page_nr then Some between
      else while_between fuel' name (add1 page_nr) page_nr_current
             (between ++ [(name, page_nr)])
  end.

(** [for index, row in group.iterrows()], over the sorted [page_nr]
    column of the group, from the state [page_nr_last]. *)
Fixpoint iterrows (fuel : nat) (name : string) (pages : list cell)
    (page_nr_last : cell) (between : list gap) : option (list gap) :=
  match pages with
  | [] => Some between
  | page_nr_current :: rest =>
      match page_nr_last with
      | Some last =>
          if falsy page_nr_last then
            iterrows fuel name rest page_nr_current between
          else if cell_is page_nr_current (add1 last) then
            iterrows fuel name rest page_nr_current between
          else
            match while_between fuel name (add1 last) page_nr_current between with
            | Some between' => iterrows fuel name rest page_nr_current between'
            | None => None
            end
      | None => iterrows fuel name rest page_nr_current between
      end
  end.

(** One document: sort the group, then walk it from [page_nr_last = None]. *)
Definition document_gaps (fuel : nat) (name : string) (group : list image)
    (between : list gap) : option (list gap) :=
  iterrows fuel name (sort_values (map page_nr group)) None between.

Fixpoint each_group (fuel : nat) (groups : list (string * list image))
    (between : list gap) : option (list gap) :=
  match groups with
  | [] => Some between
  | (name, group) :: rest =>
      match document_gaps fuel name group between with
      | Some between' => each_group fuel rest between'
      | None => None
      end
  end.

(** The frame [image_between_selected] that the loop over
    [image_selected.groupby('doc_title')] builds (the spec's [find_gaps]). *)
Definition image_between_selected (fuel : nat) (image_selected : list image)
  : option (list gap) :=
  each_group fuel (groupby doc_title image_selected) [].

(** A selection as a frame, from document titles and page numbers. *)
Definition pages_of (name : string) (pages : list Z) : list image :=
  map (fun p => {| filename := name ++ "_" ++ format_03 p ++ ".jpg";
                   doc_title := Some name;
                   page_nr := Some (Int p) |}) pages.

(** ** Sampler

    [random.sample(range(n), k)] is the library's: it raises [ValueError]
    unless [0 <= k <= n], and otherwise returns [k] positions in the order in
    which it selected them, advancing the generator.  The generator is kept
    abstract: [choose g n k] is that list and the next state. *)

Definition sample_size : nat := 1000.

Section Sampler.
Context {rng : Type} (choose : rng -> nat -> nat -> list Z * rng).

Definition random_sample (g : rng) (n k : nat) : result (list Z * rng) :=
  if (k <=? n)%nat then Ok (choose g n k) else Raise ValueError.

(** [frame.iloc[random.sample(range(frame.shape[0]), k)]] *)
Definition sample_rows {A} (g : rng) (frame : list A) (k : nat)
  : result (list A * rng) :=
  drawn <- random_sample g (List.length frame) k ;;
  rows <- iloc frame (fst drawn) ;;
  Ok (rows, snd drawn).

(** The rows copied to [between_selected]: a sample when the frame has
    more than 1000 rows, the frame itself otherwise. *)
Definition image_between_selected_sample {A} (g : rng) (frame : list A)
  : result (list A * rng) :=
  if (sample_size <? List.length frame)%nat
  then sample_rows g frame sample_size
  else Ok (frame, g).

Definition image_selected_sample {A} (g : rng) (image_selected : list A)
  : result (list A * rng) :=
  sample_rows g image_selected sample_size.

Definition image_sample {A} (g : rng) (imagelist : list A)
  : result (list A * rng) :=
  sample_rows g imagelist sample_size.

Definition user_image_selected_sample {A} (g : rng)
    (user_image_selected : list A) : result (list A * rng) :=
  sample_rows g user_image_selected sample_size.
End Sampler.

(** ** The generator of the script

    [random.seed(1)] and the draws of [random.sample], after CPython's
    [_randommodule.c] and [Lib/random.py]: the Mersenne Twister MT19937 on
    32-bit words.  The two rejection loops take fuel. *)

Module MT19937.

Definition N : nat := 624.
Definition M : nat := 397.
Definition MATRIX_A : Z := 0x9908b0df.
Definition UPPER_MASK : Z := 0x80000000.
Definition LOWER_MASK : Z := 0x7fffffff.

Definition u32 (x : Z) : Z := x mod 2 ^ 32.

Record state := { mt : list Z; index : nat }.

Definition get (a : list Z) (i : nat) : Z := nth i a 0.

Fixpoint set (a : list Z) (i : nat) (v : Z) : list Z :=
  match a, i with
  | [], _ => []
  | _ :: a', O => v :: a'
  | x :: a', S i' => x :: set a' i' v
  end.

(** [init_genrand] *)
Fixpoint init_fill (count : nat) (mti : Z) (prev : Z) : list Z :=
  match count with
  | O => []
  | S count' =>
      let v := u32 (1812433253 * Z.lxor prev (Z.shiftr prev 30) + mti) in
      v :: init_fill count' (mti + 1) v
  end.

Definition init_genrand (s : Z) : list Z :=
  u32 s :: init_fill (N - 1) 1 (u32 s).

Definition wrap (a : list Z) (i : nat) : list Z * nat :=
  if (N <=? i)%nat then (set a 0 (get a (N - 1)), 1%nat) else (a, i).

(** The two loops of [init_by_array]. *)
Fixpoint mix_key (k : nat) (a : list Z) (i j : nat) (key : list Z)
  : list Z * nat :=
  match k with
  | O => (a, i)
  | S k' =>
      let p := get a (i - 1) in
      let v := u32 (Z.lxor (get a i) (Z.lxor p (Z.shiftr p 30) * 1664525)
                    + get key j + Z.of_nat j) in
      let '(a', i') := wrap (set a i v) (S i) in
      let j' := if (List.length key <=? S j)%nat then O else S j in
      mix_key k' a' i' j' key
  end.

Fixpoint mix_index (k : nat) (a : list Z) (i : nat) : list Z :=
  match k with
  | O => a
  | S k' =>
      let p := get a (i - 1) in
      let v := u32 (Z.lxor (get a i) (Z.lxor p (Z.shiftr p 30) * 1566083941)
                    - Z.of_nat i) in
      let '(a', i') := wrap (set a i v) (S i) in
      mix_index k' a' i'
  end.

Definition init_by_array (key : list Z) : state :=
  let '(a, i) := mix_key (Nat.max N (List.length key)) (init_genrand 19650218)
                   1 0 key in
  {| mt := set (mix_index (N - 1) a i) 0 0x80000000; index := N |}.

(** The 32-bit words of a non-negative integer, least significant first. *)
Fixpoint words (fuel : nat) (n : Z) : list Z :=
  match fuel with
  | O => []
  | S fuel' =>
      u32 n :: (if n / 2 ^ 32 =? 0 then [] else words fuel' (n / 2 ^ 32))
  end.

(** [random.seed(a)] for an integer [a]. *)
Definition seed (a : Z) : state :=
  init_by_array (words (S (Z.to_nat (Z.log2 (Z.abs a)))) (Z.abs a)).

Definition twist_at (a : list Z) (kk : nat) : list Z :=
  let y := Z.lor (Z.land (get a kk) UPPER_MASK)
                 (Z.land (get a ((kk + 1) mod N)) LOWER_MASK) in
  set a kk (Z.lxor (Z.lxor (get a ((kk + M) mod N)) (Z.shiftr y 1))
                   (if Z.odd y then MATRIX_A else 0)).

Definition twist (a : list Z) : list Z := fold_left twist_at (seq 0 N) a.

Definition temper (y : Z) : Z :=
  let y := Z.lxor y (Z.shiftr y 11) in
  let y := Z.lxor y (Z.land (u32 (Z.shiftl y 7)) 0x9d2c5680) in
  let y := Z.lxor y (Z.land (u32 (Z.shiftl y 15)) 0xefc60000) in
  Z.lxor y (Z.shiftr y 18).

Definition genrand_uint32 (g : state) : Z * state :=
  let '(a, i) := if (N <=? index g)%nat then (twist (mt g), O)
                 else (mt g, index g) in
  (temper (get a i), {| mt := a; index := S i |}).

(** [getrandbits(k)] for [0 < k <= 32]. *)
Definition getrandbits (k : Z) (g : state) : Z * state :=
  let '(r, g') := genrand_uint32 g in (Z.shiftr r (32 - k), g').

Definition bit_length (n : Z) : Z := if n =? 0 then 0 else Z.log2 n + 1.

(** [_randbelow_with_getrandbits(n)], for [0 < n < 2 ** 32]. *)
Fixpoint randbelow (fuel : nat) (n : Z) (g : state) : option (Z * state) :=
  match fuel with
  | O => None
  | S fuel' =>
      let '(r, g') := getrandbits (bit_length n) g in
      if n <=? r then randbelow fuel' n g' else Some (r, g')
  end.

(** The smallest power of 4 that is at least [x]:
    [4 ** ceil(log(x, 4))]. *)
Fixpoint pow4_above (fuel : nat) (p x : Z) : Z :=
  match fuel with
  | O => p
  | S fuel' => if x <=? p then p else pow4_above fuel' (4 * p) x
  end.

Definition setsize (k : nat) : Z :=
  if (5 <? k)%nat
  then 21 + pow4_above (S k) 1 (3 * Z.of_nat k)
  else 21.

(** The branch of [sample] for a small population: draw from a pool and
    move the last item that is not selected into the vacancy. *)
Fixpoint sample_pool (fuel : nat) (k : nat) (n : nat) (pool : list Z)
    (g : state) : option (list Z * state) :=
  match k with
  | O => Some ([], g)
  | S k' =>
      match randbelow fuel (Z.of_nat n) g with
      | None => None
      | Some (j, g') =>
          let pool' := set pool (Z.to_nat j) (get pool (n - 1)) in
          match sample_pool fuel k' (n - 1) pool' g' with
          | None => None
          | Some (rest, g'') => Some (get pool (Z.to_nat j) :: rest, g'')
          end
      end
  end.

(** [j = randbelow(n); while j in selected: j = randbelow(n)] *)
Fixpoint fresh (fuel : nat) (tries : nat) (n : nat) (selected : list Z)
    (g : state) : option (Z * state) :=
  match tries with
  | O => None
  | S tries' =>
      match randbelow fuel (Z.of_nat n) g with
      | None => None
      | Some (j, g') =>
          if existsb (Z.eqb j) selected then fresh fuel tries' n selected g'
          else Some (j, g')
      end
  end.

(** The branch of [sample] for a large population: keep the set of the
    positions selected so far. *)
Fixpoint sample_set (fuel : nat) (k : nat) (n : nat) (selected : list Z)
    (g : state) : option (list Z * state) :=
  match k with
  | O => Some ([], g)
  | S k' =>
      match fresh fuel fuel n selected g with
      | None => None
      | Some (j, g') =>
          match sample_set fuel k' n (j :: selected) g' with
          | None => None
          | Some (rest, g'') => Some (j :: rest, g'')
          end
      end
  end.

(** [random.sample(range(n), k)] for [0 <= k <= n]. *)
Definition sample (fuel : nat) (g : state) (n k : nat)
  : option (list Z * state) :=
  if Z.of_nat n <=? setsize k
  then sample_pool fuel k n (map Z.of_nat (seq 0 n)) g
  else sample_set fuel k n [] g.

(** The generator as the sampler takes it; 64 tries for each rejection
    loop, and the empty draw should one of them not end by then. *)
Definition choose (g : state) (n k : nat) : list Z * state :=
  match sample 64 g n k with
  | Some r => r
  | None => ([], g)
  end.

End MT19937.

(** ** Vocabulary of the statements *)

(** [l1] is [l2] with some rows left out, the others in their order. *)
Inductive Subseq {A : Type} : list A -> list A -> Prop :=
| Subseq_nil : Subseq [] []
| Subseq_skip x l1 l2 : Subseq l1 l2 -> Subseq l1 (x :: l2)
| Subseq_take x l1 l2 : Subseq l1 l2 -> Subseq (x :: l1) (x :: l2).

Fixpoint subseqb {A : Type} (eqb : A -> A -> bool) (l1 l2 : list A) : bool :=
  match l1, l2 with
  | [], _ => true
  | _ :: _, [] => false
  | x :: l1', y :: l2' =>
      if eqb x y then subseqb eqb l1' l2' else subseqb eqb l1 l2'
  end.

(** The row of [frame] that the positional index [i] denotes. *)
Definition row_at {A} (frame : list A) (i : Z) : option A :=
  match position (List.length frame) i with
  | Some k => nth_error frame k
  | None => None
  end.

Definition has_label (h : hotspot) (c : string) : bool :=
  existsb (fun r => (label r =? c)%string) h.

(** The index lists of the clusters of interest, one after the other. *)
Definition index_lists (h : hotspot) (cluster_of_interest : list string)
  : list Z :=
  flat_map (fun c => match find (fun r => (label r =? c)%string) h with
                     | Some r => images r
                     | None => []
                     end) cluster_of_interest.

(** A document title of the shape [HGB_d_ddd_ddd]: the pattern matches the
    whole of [t]. *)
Definition valid_title (t : string) : Prop :=
  Re.match_here doc_title_pattern t = Some t.

(** The page numbers that [format_03] writes with three digits which
    [int] reads back. *)
Definition three_digits (p : Z) : bool :=
  match format_03 p with
  | String a (String b (String c EmptyString)) =>
      Re.is_digit a && Re.is_digit b && Re.is_digit c
      && match int (String a (String b (String c EmptyString))) with
         | Some n => n =? p
         | None => false
         end
  | _ => false
  end.

(** The integers strictly between [a] and [b], ascending. *)
Definition pages_between (a b : Z) : list Z :=
  map (fun i => a + 1 + Z.of_nat i) (seq 0 (Z.to_nat (b - a - 1))).

(** The integers strictly between two neighbours of an ascending list. *)
Fixpoint gaps_in (pages : list Z) : list Z :=
  match pages with
  | [] => []
  | a :: rest =>
      match rest with
      | [] => []
      | b :: _ => (pages_between a b ++ gaps_in rest)%list
      end
  end.

Definition gap_rows (name : string) (pages : list Z) : list gap :=
  map (fun p => (name, Int p)) pages.

Definition int_cells (pages : list Z) : list cell :=
  map (fun p => Some (Int p)) pages.

(** The rows that have a key. *)
Definition has_title {A} (key : A -> option string) (r : A) : bool :=
  match key r with
  | Some _ => true
  | None => false
  end.


Definition in_bounds (n : nat) (i : Z) : bool :=
  (- Z.of_nat n <=? i) && (i <? Z.of_nat n).

(** The page numbers that [format_03] writes with four digits, the last
    three of which [int] reads as the number modulo 1000. *)
Definition four_digits (p : Z) : bool :=
  match format_03 p with
  | String a (String b (String c (String d EmptyString))) =>
      Re.is_digit a && Re.is_digit b && Re.is_digit c && Re.is_digit d
      && match int (String b (String c (String d EmptyString))) with
         | Some n => n =? p mod 1000
         | None => false
         end
  | _ => false
  end.

(** The state of the walk bounds the pages that follow from below. *)
Definition below (last : cell) (zs : list Z) : Prop :=
  match last with
  | Some (Int l) => Forall (fun z => l <= z) zs
  | Some NaN => zs = []
  | None => True
  end.

(** The rows the gap loop appends for one group whose page numbers are
    distinct integers. *)
Definition document_rows (g : string * list image) : list gap :=
  gap_rows (fst g) (gaps_in (sort Z.leb (integers (map page_nr (snd g))))).

(** No element occurs twice, by the test [eqb]. *)
Fixpoint all_distinct {A} (eqb : A -> A -> bool) (l : list A) : bool :=
  match l with
  | [] => true
  | x :: l' => negb (existsb (eqb x) l') && all_distinct eqb l'
  end.

(** [frame['filename'].values] *)
Definition filename_column (frame : list image) : list string :=
  map filename frame.

(** [validate_result]: [to_be_selected] is the column [filename] of the
    table read from [to_be_selected.txt], [None] when the table has no such
    column: the [KeyError] is caught and gives [None]. *)
Definition validate_result (filename : string) (image_selected : list image)
    (to_be_selected : option (list string)) : option string :=
  match to_be_selected with
  | None => None
  | Some truth =>
      Some (if existsb (String.eqb filename) (filename_column image_selected)
            then if existsb (String.eqb filename) truth
                 then "correct selected" else "wrong selected"
            else if existsb (String.eqb filename) truth
                 then "wrong not selected" else "correct not selected")
  end.

(** A generator that draws the last [k] positions of the frame, the last
    one first; it stands for [random.sample] where only its contract
    matters. *)
Definition descending (g : unit) (n k : nat) : list Z * unit :=
  (map Z.of_nat (rev (seq (n - k) k)), g).

(* ================================================================== *)
(** * Properties *)

(** ** The parser and the generator on known values *)

Example get_page_nr_page : get_page_nr "HGB_1_001_002_007.jpg" = Some 7.
Proof. reflexivity. Qed.

Example get_page_nr_no_match : get_page_nr "noise.png" = None.
Proof. reflexivity. Qed.

Example get_doc_title_title :
  get_doc_title "HGB_1_001_002_007.jpg" = Some "HGB_1_001_002".
Proof. reflexivity. Qed.

Example get_filename_padded :
  get_filename (Some "HGB_1_001_002") (Some 7) = Some "HGB_1_001_002_007.jpg".
Proof. reflexivity. Qed.

Example format_03_widths :
  (format_03 (-5), format_03 1000, format_03 0, format_03 42)
  = ("-05", "1000", "000", "042").
Proof. reflexivity. Qed.

(** [random.seed(1); random.sample(range(10), 4)] is [[2, 1, 4, 0]], and
    with a seed of two words [random.sample(range(30), 7)] is
    [[16, 27, 17, 20, 14, 10, 11]]. *)
Example seed_1_sample_10_4 :
  fst (MT19937.choose (MT19937.seed 1) 10 4) = [2; 1; 4; 0].
Proof. vm_compute. reflexivity. Qed.

Example long_seed_sample_30_7 :
  fst (MT19937.choose (MT19937.seed 12345678901234567890) 30 7)
  = [16; 27; 17; 20; 14; 10; 11].
Proof. vm_compute. reflexivity. Qed.

(** The branch for a large population:
    [random.seed(1); random.sample(range(5000), 1000)[:4]]. *)
Example seed_1_sample_5000 :
  firstn 4 (fst (MT19937.choose (MT19937.seed 1) 5000 1000))
  = [1100; 4662; 516; 2089].
Proof. vm_compute. reflexivity. Qed.

(** ** Results and frames *)

Lemma bind_ok {A B} (r : result A) (k : A -> result B) b :
  bind r k = Ok b <-> exists a, r = Ok a /\ k a = Ok b.
Proof.
  destruct r as [a|e]; simpl; split.
  - intros H. exists a. auto.
  - intros [a' [Ha Hk]]. injection Ha as ->. exact Hk.
  - discriminate.
  - intros [a' [Ha _]]. discriminate.
Qed.

Lemma position_bound n i k : position n i = Some k -> (k < n)%nat.
Proof.
  unfold position. intros H.
  destruct ((0 <=? i) && (i <? Z.of_nat n)) eqn:E1.
  - injection H as <-. lia.
  - destruct ((- Z.of_nat n <=? i) && (i <? 0)) eqn:E2; [|discriminate].
    injection H as <-. lia.
Qed.

Lemma position_nonneg n i :
  0 <= i < Z.of_nat n -> position n i = Some (Z.to_nat i).
Proof.
  intros H. unfold position.
  replace ((0 <=? i) && (i <? Z.of_nat n)) with true; [reflexivity|].
  symmetry. apply andb_true_iff. lia.
Qed.

Lemma position_in_bounds n i :
  - Z.of_nat n <= i < Z.of_nat n -> exists k, position n i = Some k.
Proof.
  intros H. unfold position.
  destruct ((0 <=? i) && (i <? Z.of_nat n)) eqn:E1; [eauto|].
  destruct ((- Z.of_nat n <=? i) && (i <? 0)) eqn:E2; [eauto|].
  apply andb_false_iff in E1, E2. lia.
Qed.

Lemma row_at_in_bounds {A} (frame : list A) i :
  - Z.of_nat (List.length frame) <= i < Z.of_nat (List.length frame) ->
  exists r, row_at frame i = Some r.
Proof.
  intros H. unfold row_at.
  destruct (position_in_bounds _ _ H) as [k Hk]. rewrite Hk.
  apply position_bound in Hk.
  destruct (nth_error frame k) eqn:E; [eauto|].
  apply nth_error_None in E. lia.
Qed.

Lemma row_at_In {A} (frame : list A) i r : row_at frame i = Some r -> In r frame.
Proof.
  unfold row_at. destruct (position _ i); [|discriminate].
  apply nth_error_In.
Qed.

(** [iloc] returns exactly the rows its positions denote, one per position. *)
Lemma iloc_rows {A} (frame : list A) positions rows :
  iloc frame positions = Ok rows <->
  Forall2 (fun i r => row_at frame i = Some r) positions rows.
Proof.
  revert rows. induction positions as [|i rest IH]; intros rows; simpl.
  - split.
    + intros H. injection H as <-. constructor.
    + intros H. inversion H. reflexivity.
  - assert (Hrow : row_at frame i
                   = match position (List.length frame) i with
                     | Some k => nth_error frame k
                     | None => None
                     end) by reflexivity.
    destruct (position (List.length frame) i) as [k|]; simpl.
    + destruct (nth_error frame k) as [r|]; simpl.
      * rewrite bind_ok. split.
        -- intros [rows' [H1 H2]]. injection H2 as <-.
           constructor; [exact Hrow|]. apply IH, H1.
        -- intros H. inversion H as [|? r' ? rows' Hr Hrest]; subst.
           rewrite Hrow in Hr. injection Hr as <-.
           exists rows'. split; [apply IH, Hrest|reflexivity].
      * split; [discriminate|]. intros H; inversion H; congruence.
    + split; [discriminate|]. intros H; inversion H; congruence.
Qed.

Lemma iloc_total {A} (frame : list A) positions :
  Forall (fun i => - Z.of_nat (List.length frame) <= i < Z.of_nat (List.length frame))
         positions ->
  exists rows, iloc frame positions = Ok rows.
Proof.
  induction 1 as [|i rest Hi _ [rows IH]].
  - exists []. reflexivity.
  - destruct (row_at_in_bounds frame i Hi) as [r Hr].
    exists (r :: rows). apply iloc_rows. constructor; [exact Hr|].
    apply iloc_rows, IH.
Qed.

(** ** Cluster resolver *)

Lemma cluster_images_found h c :
  has_label h c = true ->
  cluster_images h c = Ok (index_lists h [c]).
Proof.
  unfold has_label, cluster_images, index_lists. simpl. intros H.
  destruct (find (fun r => (label r =? c)%string) h) as [r|] eqn:E.
  - rewrite app_nil_r. reflexivity.
  - apply existsb_exists in H. destruct H as [r [Hin Hr]].
    pose proof (find_none _ _ E r Hin) as Hn. simpl in Hn. congruence.
Qed.

Lemma collect_index_valid h cluster_of_interest image_index :
  Forall (fun c => has_label h c = true) cluster_of_interest ->
  collect_index h cluster_of_interest image_index
  = Ok (image_index ++ index_lists h cluster_of_interest)%list.
Proof.
  intros H. revert image_index.
  induction H as [|c rest Hc _ IH]; intros image_index; simpl.
  - rewrite app_nil_r. reflexivity.
  - rewrite (cluster_images_found h c Hc). simpl. rewrite IH.
    unfold index_lists. simpl. rewrite !app_nil_r, app_assoc. reflexivity.
Qed.

Lemma rows_subset {A} (frame : list A) positions rows :
  Forall2 (fun i r => row_at frame i = Some r) positions rows ->
  incl rows frame.
Proof.
  induction 1 as [|i r positions rows Hr _ IH].
  - intros x [].
  - intros x [<-|Hx]; [exact (row_at_In _ _ _ Hr)|exact (IH x Hx)].
Qed.

Lemma rows_In_position {A} (frame : list A) positions rows r :
  Forall2 (fun i r => row_at frame i = Some r) positions rows ->
  In r rows -> exists i, In i positions /\ row_at frame i = Some r.
Proof.
  induction 1 as [|i r' positions rows Hr _ IH]; simpl.
  - intros [].
  - intros [->|Hin]; [eauto|].
    destruct (IH Hin) as [i' [H1 H2]]. eauto.
Qed.

Lemma rows_NoDup {A} (frame : list A) positions rows :
  NoDup frame ->
  NoDup (map (position (List.length frame)) positions) ->
  Forall2 (fun i r => row_at frame i = Some r) positions rows ->
  NoDup rows.
Proof.
  intros Hframe Hpos H. induction H as [|i r positions rows Hr Hrest IH].
  - constructor.
  - simpl in Hpos. inversion Hpos as [|? ? Hnotin Hpos']; subst.
    constructor; [|exact (IH Hpos')].
    intros Hin. apply Hnotin.
    destruct (rows_In_position _ _ _ _ Hrest Hin) as [i' [Hi' Hr']].
    apply in_map_iff. exists i'. split; [|exact Hi'].
    unfold row_at in Hr, Hr'.
    destruct (position (List.length frame) i) as [k|] eqn:Ek; [|discriminate].
    destruct (position (List.length frame) i') as [k'|] eqn:Ek'; [|discriminate].
    f_equal. apply position_bound in Ek'.
    apply (proj1 (NoDup_nth_error frame) Hframe k' k Ek'). congruence.
Qed.

(** ** Rows in frame order *)

Lemma Subseq_nil_l {A} (l : list A) : Subseq [] l.
Proof. induction l; constructor; assumption. Qed.

Lemma Subseq_refl {A} (l : list A) : Subseq l l.
Proof. induction l; constructor; assumption. Qed.

Lemma Subseq_tail {A} (x : A) l1 l2 : Subseq (x :: l1) l2 -> Subseq l1 l2.
Proof.
  intros H. remember (x :: l1) as l eqn:E. revert x l1 E.
  induction H as [|y l l2 H IH|y l l2 H IH]; intros x l1 E.
  - discriminate.
  - constructor. exact (IH x l1 E).
  - injection E as -> ->. constructor. exact H.
Qed.

(** The greedy test finds every subsequence. *)
Lemma Subseq_subseqb {A} (eqb : A -> A -> bool) (l1 l2 : list A) :
  (forall x, eqb x x = true) -> Subseq l1 l2 -> subseqb eqb l1 l2 = true.
Proof.
  intros Hrefl H. induction H as [|y l1 l2 H IH|y l1 l2 H IH]; simpl.
  - reflexivity.
  - destruct l1 as [|x l1]; [reflexivity|].
    destruct (eqb x y); [|exact IH].
    clear IH. apply Subseq_tail in H.
    revert H. generalize l1 as m. induction l2 as [|z l2 IH2]; intros m Hm.
    + inversion Hm. reflexivity.
    + destruct m as [|w m]; [reflexivity|]. simpl.
      inversion Hm as [|? ? ? Hs|? ? ? Hs]; subst.
      * destruct (eqb w z).
        -- apply IH2. exact (Subseq_tail _ _ _ Hs).
        -- apply IH2 in Hs. exact Hs.
      * rewrite Hrefl. apply IH2, Hs.
  - rewrite Hrefl. exact IH.
Qed.

Lemma rows_shift {A} (x : A) frame ps rows :
  Forall (fun p => (0 < p)%nat) ps ->
  Forall2 (fun p r => nth_error (x :: frame) p = Some r) ps rows ->
  Forall2 (fun p r => nth_error frame p = Some r) (map Nat.pred ps) rows.
Proof.
  intros Hpos H. induction H as [|p r ps rows Hr _ IH]; simpl.
  - constructor.
  - inversion Hpos as [|? ? Hp Hps]; subst.
    constructor; [|exact (IH Hps)].
    destruct p as [|p]; [lia|exact Hr].
Qed.

Lemma sorted_shift ps :
  Forall (fun p => (0 < p)%nat) ps ->
  StronglySorted lt ps -> StronglySorted lt (map Nat.pred ps).
Proof.
  intros Hpos H. induction H as [|p ps Hs IH Hall]; simpl.
  - constructor.
  - inversion Hpos as [|? ? Hp Hps]; subst.
    constructor; [exact (IH Hps)|].
    apply Forall_forall. intros q Hq. apply in_map_iff in Hq.
    destruct Hq as [q' [<- Hq']].
    pose proof (proj1 (Forall_forall _ _) Hall q' Hq').
    pose proof (proj1 (Forall_forall _ _) Hps q' Hq'). lia.
Qed.

(** Rows taken at ascending positions come in frame order. *)
Lemma ascending_rows_Subseq {A} (frame : list A) ps rows :
  StronglySorted lt ps ->
  Forall2 (fun p r => nth_error frame p = Some r) ps rows ->
  Subseq rows frame.
Proof.
  revert ps rows. induction frame as [|x frame IH]; intros ps rows Hs H.
  - destruct H as [|p r ps rows Hr _]; [constructor|].
    destruct p; discriminate.
  - destruct H as [|p r ps rows Hr Hrest]; [apply Subseq_nil_l|].
    inversion Hs as [|? ? Hs' Hall]; subst.
    destruct p as [|p].
    + injection Hr as ->. apply Subseq_take.
      assert (Hpos : Forall (fun q => (0 < q)%nat) ps) by exact Hall.
      apply (IH (map Nat.pred ps) rows).
      * apply sorted_shift; assumption.
      * eapply rows_shift; eassumption.
    + apply Subseq_skip.
      assert (Hpos : Forall (fun q => (0 < q)%nat) (S p :: ps)).
      { constructor; [lia|]. apply Forall_forall. intros q Hq.
        pose proof (proj1 (Forall_forall _ _) Hall q Hq). lia. }
      apply (IH (map Nat.pred (S p :: ps)) (r :: rows)).
      * apply sorted_shift; assumption.
      * eapply rows_shift; [eassumption|]. constructor; eassumption.
Qed.

Lemma ascending_positions idx n :
  StronglySorted Z.lt idx ->
  Forall (fun i => 0 <= i < Z.of_nat n) idx ->
  StronglySorted lt (map Z.to_nat idx).
Proof.
  intros Hs Hb. induction Hs as [|i idx Hs IH Hall]; simpl.
  - constructor.
  - inversion Hb as [|? ? Hi Hb']; subst.
    constructor; [exact (IH Hb')|].
    apply Forall_forall. intros q Hq. apply in_map_iff in Hq.
    destruct Hq as [j [<- Hj]].
    pose proof (proj1 (Forall_forall _ _) Hall j Hj).
    pose proof (proj1 (Forall_forall _ _) Hb' j Hj). lia.
Qed.

Lemma rows_at_nonneg {A} (frame : list A) idx rows :
  Forall (fun i => 0 <= i < Z.of_nat (List.length frame)) idx ->
  Forall2 (fun i r => row_at frame i = Some r) idx rows ->
  Forall2 (fun p r => nth_error frame p = Some r) (map Z.to_nat idx) rows.
Proof.
  intros Hb H. induction H as [|i r idx rows Hr _ IH]; simpl.
  - constructor.
  - inversion Hb as [|? ? Hi Hb']; subst.
    constructor; [|exact (IH Hb')].
    unfold row_at in Hr. rewrite (position_nonneg _ _ Hi) in Hr. exact Hr.
Qed.

(** ** C1 *)




(** ** C2 *)

(** C2, as the code has it: the rows come in the order of the index list. *)
Lemma selection_follows_index_order :
  get_selected_images [ {| label := "Cluster 8"; images := [3; 0] |} ]
    ["a"; "b"; "c"; "d"] ["Cluster 8"]
  = Ok ["d"; "a"]
  /\ ~ Subseq ["d"; "a"] ["a"; "b"; "c"; "d"].
Proof.
  split; [reflexivity|].
  intros H. apply (Subseq_subseqb String.eqb) in H.
  - discriminate.
  - apply String.eqb_refl.
Qed.

(** C2 (amended): for valid labels and indices, the selection lists the
    images in the order of the index lists of the clusters of interest put
    one after the other (labels in iteration order, each list in its own
    order): its k-th row is the image at the k-th of these indices.  It is
    the subsequence of the image list in original order when these indices
    are ascending. *)
Theorem get_selected_images_order :
  forall (h : hotspot) (imagelist : list string) (cluster_of_interest : list string),
    Forall (fun c => has_label h c = true) cluster_of_interest ->
    Forall (fun i => - Z.of_nat (List.length imagelist) <= i
                     < Z.of_nat (List.length imagelist))
           (index_lists h cluster_of_interest) ->
    exists image_selected,
      get_selected_images h imagelist cluster_of_interest = Ok image_selected
      /\ Forall2 (fun i f => row_at imagelist i = Some f)
                 (index_lists h cluster_of_interest) image_selected
      /\ (Forall (fun i => 0 <= i) (index_lists h cluster_of_interest) ->
          StronglySorted Z.lt (index_lists h cluster_of_interest) ->
          Subseq image_selected imagelist).
Proof.
  intros h imagelist cois Hlabels Hidx.
  unfold get_selected_images. rewrite (collect_index_valid h cois [] Hlabels).
  simpl. destruct (iloc_total imagelist _ Hidx) as [rows Hrows].
  exists rows. split; [exact Hrows|].
  apply iloc_rows in Hrows. split; [exact Hrows|].
  intros Hnonneg Hsorted.
  assert (Hb : Forall (fun i => 0 <= i < Z.of_nat (List.length imagelist))
                      (index_lists h cois)).
  { apply Forall_forall. intros i Hi.
    pose proof (proj1 (Forall_forall _ _) Hidx i Hi) as H1.
    pose proof (proj1 (Forall_forall _ _) Hnonneg i Hi) as H2.
    cbv beta in H1, H2. lia. }
  apply (ascending_rows_Subseq imagelist (map Z.to_nat (index_lists h cois))).
  - exact (ascending_positions _ _ Hsorted Hb).
  - exact (rows_at_nonneg _ _ _ Hb Hrows).
Qed.

Lemma get_selected_images_order_witness :
  exists image_selected,
    get_selected_images
      [ {| label := "Cluster 8"; images := [0; 2] |};
        {| label := "Cluster 9"; images := [3] |} ]
      ["a"; "b"; "c"; "d"] ["Cluster 8"; "Cluster 9"] = Ok image_selected
    /\ Forall2 (fun i f => row_at ["a"; "b"; "c"; "d"] i = Some f)
               [0; 2; 3] image_selected
    /\ (Forall (fun i => 0 <= i) [0; 2; 3] ->
        StronglySorted Z.lt [0; 2; 3] ->
        Subseq image_selected ["a"; "b"; "c"; "d"]).
Proof.
  apply (get_selected_images_order
           [ {| label := "Cluster 8"; images := [0; 2] |};
             {| label := "Cluster 9"; images := [3] |} ]
           ["a"; "b"; "c"; "d"] ["Cluster 8"; "Cluster 9"]).
  - repeat constructor.
  - change (Forall (fun i => -4 <= i < 4) [0; 2; 3]).
    repeat (apply Forall_cons; [lia|]). apply Forall_nil.
Defined.

(** ** Filenames *)

Lemma full_match_nil t : Re.match_here [] t = Some t -> t = "".
Proof. simpl. intros H. injection H as <-. reflexivity. Qed.

Lemma full_match_cons a p t :
  Re.match_here (a :: p) t = Some t ->
  exists c t', t = String c t' /\ Re.atom_matches a c = true
               /\ Re.match_here p t' = Some t'.
Proof.
  simpl. destruct t as [|c t']; [discriminate|].
  destruct (Re.atom_matches a c) eqn:Ea; [|discriminate].
  destruct (Re.match_here p t') as [m|] eqn:Em; [|discriminate].
  simpl. intros H. injection H as ->. exists c, t'. auto.
Qed.

Lemma valid_title_shape t :
  valid_title t ->
  exists d1 d2 d3 d4 d5 d6 d7,
    Forall (fun d => Re.is_digit d = true) [d1; d2; d3; d4; d5; d6; d7]
    /\ t = String "H" (String "G" (String "B" (String "_" (String d1
           (String "_" (String d2 (String d3 (String d4 (String "_"
           (String d5 (String d6 (String d7 "")))))))))))).
Proof.
  unfold valid_title, doc_title_pattern. cbn [Re.lits Re.times list_ascii_of_string map repeat app].
  intros H.
  repeat match goal with
  | H : Re.match_here (_ :: _) _ = Some _ |- _ =>
      apply full_match_cons in H;
      let c := fresh "c" in let t' := fresh "t" in let E := fresh "E" in
      let Hc := fresh "Hc" in
      destruct H as [c [t' [E [Hc H]]]]; subst; simpl in Hc
  end.
  apply full_match_nil in H. subst.
  repeat match goal with
  | H : Ascii.eqb _ _ = true |- _ => apply Ascii.eqb_eq in H; subst
  end.
  do 7 eexists. split; [|reflexivity].
  repeat (apply Forall_cons; [assumption|]). apply Forall_nil.
Qed.

Lemma match_here_prefix p t s :
  Re.match_here p t = Some t -> Re.match_here p (t ++ s) = Some t.
Proof.
  revert t. induction p as [|a p IH]; intros t H.
  - apply full_match_nil in H. subst. reflexivity.
  - apply full_match_cons in H. destruct H as [c [t' [-> [Ha H]]]].
    simpl. rewrite Ha, (IH t' H). reflexivity.
Qed.

Lemma search_prefix p t s :
  Re.match_here p t = Some t -> Re.search p (t ++ s) = Some t.
Proof.
  intros H. apply (match_here_prefix p t s) in H.
  destruct (t ++ s); simpl in *; rewrite H; reflexivity.
Qed.

(** A digit is none of the characters the patterns spell out. *)
Lemma digit_not_lit d l :
  Re.is_digit d = true -> Re.is_digit l = false -> Ascii.eqb d l = false.
Proof.
  intros Hd Hl. destruct (Ascii.eqb d l) eqn:E; [|reflexivity].
  apply Ascii.eqb_eq in E. congruence.
Qed.

Lemma search_step p c s :
  Re.match_here p (String c s) = None ->
  Re.search p (String c s) = Re.search p s.
Proof. intros H. simpl in *. rewrite H. reflexivity. Qed.

Lemma match_here_cons a p c s :
  Re.match_here (a :: p) (String c s)
  = if Re.atom_matches a c then option_map (String c) (Re.match_here p s)
    else None.
Proof. reflexivity. Qed.

Lemma search_found p s m :
  Re.match_here p s = Some m -> Re.search p s = Some m.
Proof. intros H. destruct s; simpl in *; rewrite H; reflexivity. Qed.

(** Decides the test of one atom on a character that is either given or
    known to be a digit. *)
Ltac decide_atom :=
  match goal with
  | H : Re.is_digit ?d = true |- context [Re.is_digit ?d] => rewrite H
  | |- context [Re.is_digit ?x] => change (Re.is_digit x) with false
  | H : Re.is_digit ?d = true |- context [Ascii.eqb ?d ?l] =>
      rewrite (digit_not_lit d l H eq_refl)
  | |- context [negb (Ascii.eqb ?x Re.newline)] =>
      change (negb (Ascii.eqb x Re.newline)) with true
  | |- context [Ascii.eqb ?x ?l] =>
      first [ change (Ascii.eqb x l) with true
            | change (Ascii.eqb x l) with false ]
  end.

Ltac run_match :=
  repeat (rewrite match_here_cons; cbn [Re.atom_matches]; decide_atom; cbv iota);
  reflexivity.

Ltac run_search :=
  repeat (rewrite search_step by run_match);
  apply search_found; run_match.

Lemma search_page_nr d1 d2 d3 d4 d5 d6 d7 a b c :
  Forall (fun d => Re.is_digit d = true) [d1; d2; d3; d4; d5; d6; d7; a; b; c] ->
  Re.search page_nr_pattern
    (String "H" (String "G" (String "B" (String "_" (String d1
      (String "_" (String d2 (String d3 (String d4 (String "_"
      (String d5 (String d6 (String d7 (String "_" (String a (String b
      (String c ".jpg")))))))))))))))))
  = Some (String a (String b (String c ".jpg"))).
Proof.
  intros H.
  repeat match goal with
  | H : Forall _ (_ :: _) |- _ =>
      let Hd := fresh "Hd" in let H' := fresh "H" in
      inversion H as [|? ? Hd H']; subst; clear H
  end.
  unfold page_nr_pattern.
  cbn [Re.lits Re.times list_ascii_of_string map repeat app].
  run_search.
Qed.

Lemma three_digits_upto_999 :
  forallb three_digits (map Z.of_nat (seq 0 1000)) = true.
Proof. vm_compute. reflexivity. Qed.

Lemma format_03_digits p :
  0 <= p <= 999 ->
  exists a b c,
    Forall (fun d => Re.is_digit d = true) [a; b; c]
    /\ format_03 p = String a (String b (String c ""))
    /\ int (String a (String b (String c "")) ) = Some p.
Proof.
  intros Hp.
  assert (H : three_digits p = true).
  { apply (proj1 (forallb_forall _ _) three_digits_upto_999).
    apply in_map_iff. exists (Z.to_nat p). split; [lia|].
    apply in_seq. lia. }
  unfold three_digits in H.
  destruct (format_03 p) as [|a [|b [|c [|? ?]]]]; try discriminate.
  apply andb_true_iff in H. destruct H as [H Hint].
  apply andb_true_iff in H. destruct H as [H Hc].
  apply andb_true_iff in H. destruct H as [Ha Hb].
  exists a, b, c. split; [repeat constructor; assumption|].
  split; [reflexivity|].
  destruct (int (String a (String b (String c "")))) as [n|]; [|discriminate].
  apply Z.eqb_eq in Hint. congruence.
Qed.

Lemma get_filename_some t p :
  get_filename (Some t) (Some p) = Some (t ++ "_" ++ format_03 p ++ ".jpg").
Proof. reflexivity. Qed.

(** C9: for every document title [t] of the shape [HGB_d_ddd_ddd] and
    every page number [p] from 1 to 999, [get_filename] returns a filename
    from which [get_doc_title] recovers [t] and [get_page_nr] recovers
    [p]. *)
Theorem filename_round_trip :
  forall (t : string) (p : Z),
    valid_title t -> 1 <= p <= 999 ->
    exists f,
      get_filename (Some t) (Some p) = Some f
      /\ get_doc_title f = Some t
      /\ get_page_nr f = Some p.
Proof.
  intros t p Ht Hp.
  exists (t ++ "_" ++ format_03 p ++ ".jpg"). split; [reflexivity|]. split.
  - unfold get_doc_title. apply search_prefix. exact Ht.
  - destruct (valid_title_shape t Ht)
      as [d1 [d2 [d3 [d4 [d5 [d6 [d7 [Hd ->]]]]]]]].
    destruct (format_03_digits p) as [a [b [c [Habc [-> Hint]]]]]; [lia|].
    unfold get_page_nr. cbn [append].
    rewrite (search_page_nr d1 d2 d3 d4 d5 d6 d7 a b c).
    + cbn [substring]. exact Hint.
    + repeat match goal with
      | H : Forall _ (_ :: _) |- _ =>
          let Hd := fresh "Hd" in let H' := fresh "H" in
          inversion H as [|? ? Hd H']; subst; clear H
      end.
      repeat (apply Forall_cons; [assumption|]). apply Forall_nil.
Qed.

Lemma filename_round_trip_witness :
  valid_title "HGB_1_001_002" /\ 1 <= 7 <= 999
  /\ exists f,
      get_filename (Some "HGB_1_001_002") (Some 7) = Some f
      /\ get_doc_title f = Some "HGB_1_001_002"
      /\ get_page_nr f = Some 7.
Proof.
  split; [reflexivity|]. split; [lia|].
  apply (filename_round_trip "HGB_1_001_002" 7); [reflexivity|lia].
Defined.

(** ** Sorting *)

Lemma insert_comm a b l :
  insert Z.leb a (insert Z.leb b l) = insert Z.leb b (insert Z.leb a l).
Proof.
  induction l as [|y l IH]; simpl;
    repeat match goal with
    | |- context [Z.leb ?x ?y] => destruct (Z.leb_spec x y); simpl
    end;
    try reflexivity; try lia;
    try (assert (a = b) by lia; subst; reflexivity).
  rewrite IH. reflexivity.
Qed.

Lemma sort_Permutation l l' :
  Permutation l l' -> sort Z.leb l = sort Z.leb l'.
Proof.
  induction 1 as [|x l l' _ IH|x y l|l l' l'' _ IH1 _ IH2]; simpl.
  - reflexivity.
  - rewrite IH. reflexivity.
  - apply insert_comm.
  - congruence.
Qed.

Lemma insert_sorted a l :
  StronglySorted Z.lt (a :: l) -> insert Z.leb a l = a :: l.
Proof.
  intros H. inversion H as [|? ? _ Hall]; subst.
  destruct l as [|y l]; simpl; [reflexivity|].
  inversion Hall as [|? ? Hy _]; subst.
  destruct (Z.leb_spec a y); [reflexivity|lia].
Qed.

Lemma sort_sorted l : StronglySorted Z.lt l -> sort Z.leb l = l.
Proof.
  induction l as [|a l IH]; intros H; simpl; [reflexivity|].
  inversion H as [|? ? Hl _]; subst.
  rewrite (IH Hl). apply insert_sorted, H.
Qed.

Lemma integers_int_cells pages : integers (int_cells pages) = pages.
Proof.
  induction pages as [|p pages IH]; simpl; [reflexivity|].
  rewrite IH. reflexivity.
Qed.

Lemma missing_int_cells pages : filter is_missing (int_cells pages) = [].
Proof. induction pages as [|p pages IH]; simpl; auto. Qed.

(** A column of integers is sorted as the ascending list it is a
    permutation of. *)
Lemma sort_values_ascending pages sorted :
  Permutation pages sorted -> StronglySorted Z.lt sorted ->
  sort_values (int_cells pages) = int_cells sorted.
Proof.
  intros Hp Hs. unfold sort_values.
  rewrite integers_int_cells, missing_int_cells, app_nil_r.
  rewrite (sort_Permutation _ _ Hp), (sort_sorted _ Hs). reflexivity.
Qed.

(** ** The gap loop *)

(** The inner loop emits the pages from [z] up to the current page. *)
Lemma while_between_emits k :
  forall fuel name z between,
    (k < fuel)%nat ->
    while_between fuel name (Int z) (Some (Int (z + Z.of_nat k))) between
    = Some (between ++ gap_rows name (map (fun i => z + Z.of_nat i) (seq 0 k)))%list.
Proof.
  induction k as [|k IH]; intros fuel name z between Hk.
  - destruct fuel as [|fuel]; [lia|]. simpl.
    replace (z + 0) with z by lia. rewrite Z.eqb_refl, app_nil_r. reflexivity.
  - destruct fuel as [|fuel]; [lia|].
    cbn [while_between cell_is number_eqb add1].
    destruct (Z.eqb_spec (z + Z.of_nat (S k)) z) as [E|_]; [lia|].
    replace (z + Z.of_nat (S k)) with (z + 1 + Z.of_nat k) by lia.
    rewrite IH by lia. rewrite <- app_assoc. f_equal. f_equal.
    cbn [seq map gap_rows app]. f_equal; [f_equal; f_equal; lia|].
    unfold gap_rows. rewrite <- seq_shift, !map_map.
    apply map_ext. intros i. f_equal. f_equal. lia.
Qed.

(** The inner loop never ends once [page_nr] is past the current page, as
    it is when a page number repeats. *)
Lemma while_between_past fuel :
  forall name z p between,
    p < z -> while_between fuel name (Int z) (Some (Int p)) between = None.
Proof.
  induction fuel as [|fuel IH]; intros name z p between Hz; simpl; [reflexivity|].
  destruct (Z.eqb_spec p z) as [E|_]; [lia|]. apply IH. lia.
Qed.

(** The inner loop never ends when the current page is missing. *)
Lemma while_between_missing fuel :
  forall name n c between,
    is_missing c = true -> while_between fuel name n c between = None.
Proof.
  induction fuel as [|fuel IH]; intros name n c between Hc; simpl; [reflexivity|].
  destruct c as [[z|]|]; try discriminate; simpl.
  - destruct n; apply IH; reflexivity.
  - apply IH. reflexivity.
Qed.

(** One step of the walk from a page [last] that is not 0 to a later page
    [p]: every integer strictly between them is emitted, ascending. *)
Lemma iterrows_step fuel name last p rest between :
  last <> 0 -> last < p -> p - last <= Z.of_nat fuel ->
  iterrows fuel name (Some (Int p) :: rest) (Some (Int last)) between
  = iterrows fuel name rest (Some (Int p))
      (between ++ gap_rows name (pages_between last p))%list.
Proof.
  intros H0 Hlt Hfuel. cbn [iterrows falsy cell_is number_eqb add1].
  destruct (Z.eqb_spec last 0) as [E|_]; [contradiction|].
  destruct (Z.eqb_spec p (last + 1)) as [E|Hne].
  - unfold pages_between. replace (Z.to_nat (p - last - 1)) with O by lia.
    simpl. rewrite app_nil_r. reflexivity.
  - pose proof (while_between_emits (Z.to_nat (p - last - 1)) fuel name
                  (last + 1) between) as Hw.
    replace (last + 1 + Z.of_nat (Z.to_nat (p - last - 1))) with p in Hw by lia.
    rewrite Hw by lia. reflexivity.
Qed.

(** A page number that repeats, as it does once two clusters share an
    image, leaves the walk in its inner loop for ever. *)
Lemma iterrows_repeated_page fuel name last rest between :
  last <> 0 ->
  iterrows fuel name (Some (Int last) :: rest) (Some (Int last)) between = None.
Proof.
  intros H0. cbn [iterrows falsy cell_is number_eqb add1].
  destruct (Z.eqb_spec last 0) as [E|_]; [contradiction|].
  destruct (Z.eqb_spec last (last + 1)) as [E|_]; [lia|].
  rewrite while_between_past by lia. reflexivity.
Qed.

(** The walk over an ascending column of pages none of which is 0, given
    fuel for the largest page. *)
Lemma iterrows_ascending fuel name :
  forall pages last between,
    StronglySorted Z.lt (last :: pages) ->
    Forall (fun p => 0 < p <= Z.of_nat fuel) (last :: pages) ->
    iterrows fuel name (int_cells pages) (Some (Int last)) between
    = Some (between ++ gap_rows name (gaps_in (last :: pages)))%list.
Proof.
  induction pages as [|p pages IH]; intros last between Hs Hb.
  - simpl. rewrite app_nil_r. reflexivity.
  - inversion Hs as [|? ? Hs' Hall]; subst.
    inversion Hall as [|? ? Hlt _]; subst.
    inversion Hb as [|? ? Hlast Hb']; subst.
    inversion Hb' as [|? ? Hp _]; subst.
    cbn [int_cells map]. rewrite iterrows_step by lia.
    change (map (fun p0 => Some (Int p0)) pages) with (int_cells pages).
    rewrite (IH p _ Hs' Hb').
    cbn [gaps_in]. unfold gap_rows. rewrite map_app, app_assoc. reflexivity.
Qed.

Lemma iterrows_first fuel name p pages between :
  iterrows fuel name (Some (Int p) :: pages) None between
  = iterrows fuel name pages (Some (Int p)) between.
Proof. reflexivity. Qed.

(** The gaps of one document whose selected pages are distinct and none
    of which is 0: the integers strictly between neighbouring selected
    pages, ascending. *)
Lemma document_gaps_ascending fuel name group pages sorted between :
  map page_nr group = int_cells pages ->
  Permutation pages sorted -> StronglySorted Z.lt sorted ->
  Forall (fun p => 0 < p <= Z.of_nat fuel) sorted ->
  document_gaps fuel name group between
  = Some (between ++ gap_rows name (gaps_in sorted))%list.
Proof.
  intros Hcol Hp Hs Hb. unfold document_gaps.
  rewrite Hcol, (sort_values_ascending _ _ Hp Hs).
  destruct sorted as [|p sorted].
  - simpl. rewrite app_nil_r. reflexivity.
  - cbn [int_cells map]. rewrite iterrows_first.
    apply (iterrows_ascending fuel name sorted p between Hs Hb).
Qed.

(** ** Grouping *)

Lemma In_insert {A} (leb : A -> A -> bool) x y l :
  In x (insert leb y l) <-> x = y \/ In x l.
Proof.
  induction l as [|z l IH]; simpl.
  - intuition congruence.
  - destruct (leb y z); simpl; [intuition congruence|].
    rewrite IH. intuition congruence.
Qed.

Lemma In_sort {A} (leb : A -> A -> bool) x l : In x (sort leb l) <-> In x l.
Proof.
  induction l as [|y l IH]; simpl; [reflexivity|].
  rewrite In_insert, IH. intuition congruence.
Qed.

Lemma NoDup_insert {A} (leb : A -> A -> bool) y l :
  NoDup l -> ~ In y l -> NoDup (insert leb y l).
Proof.
  induction l as [|z l IH]; simpl; intros Hnd Hy.
  - constructor; [intros []|constructor].
  - destruct (leb y z).
    + constructor; [simpl; exact Hy|exact Hnd].
    + inversion Hnd as [|? ? Hz Hl]; subst.
      constructor.
      * rewrite In_insert. intuition congruence.
      * apply IH; [exact Hl|tauto].
Qed.

Lemma NoDup_sort {A} (leb : A -> A -> bool) l : NoDup l -> NoDup (sort leb l).
Proof.
  induction 1 as [|y l Hy _ IH]; simpl; [constructor|].
  apply NoDup_insert; [exact IH|]. rewrite In_sort. exact Hy.
Qed.

Lemma In_present {A} (x : A) l : In x (present l) <-> In (Some x) l.
Proof.
  induction l as [|[y|] l IH]; simpl; [tauto| |].
  - rewrite IH. intuition congruence.
  - rewrite IH. intuition congruence.
Qed.

Lemma In_group_keys k keys : In k (group_keys keys) <-> In (Some k) keys.
Proof.
  unfold group_keys. rewrite In_sort, nodup_In. apply In_present.
Qed.

Lemma NoDup_group_keys keys : NoDup (group_keys keys).
Proof. apply NoDup_sort, NoDup_nodup. Qed.

Lemma filter_implied {A} (f g : A -> bool) l :
  (forall x, f x = true -> g x = true) ->
  filter f (filter g l) = filter f l.
Proof.
  intros H. induction l as [|x l IH]; simpl; [reflexivity|].
  destruct (f x) eqn:Ef.
  - rewrite (H x Ef). simpl. rewrite Ef, IH. reflexivity.
  - destruct (g x); simpl; rewrite ?Ef; exact IH.
Qed.

(** Rows without a key are in no group. *)
Lemma groupby_drops_missing {A} (key : A -> option string) frame :
  groupby key frame = groupby key (filter (has_title key) frame).
Proof.
  unfold groupby.
  assert (Hkeys : present (map key frame)
                  = present (map key (filter (has_title key) frame))).
  { induction frame as [|r frame IH]; simpl; [reflexivity|].
    unfold has_title at 1. destruct (key r) eqn:E; simpl.
    - rewrite E. simpl. rewrite IH. reflexivity.
    - exact IH. }
  unfold group_keys. rewrite <- Hkeys.
  apply map_ext. intros k. f_equal. symmetry. apply filter_implied.
  intros x. unfold has_key, has_title. destruct (key x); [reflexivity|discriminate].
Qed.

(** A frame of one document is one group. *)
Lemma groupby_single {A} (key : A -> option string) name r frame :
  Forall (fun x => key x = Some name) (r :: frame) ->
  groupby key (r :: frame) = [(name, r :: frame)].
Proof.
  intros H. unfold groupby.
  assert (Hkeys : forall l, Forall (fun x => key x = Some name) l ->
                            nodup string_dec (present (map key l))
                            = match l with [] => [] | _ => [name] end).
  { induction l as [|x l IHl]; intros Hl; [reflexivity|].
    inversion Hl as [|? ? Hx Hl']; subst. simpl. rewrite Hx. simpl.
    specialize (IHl Hl').
    destruct l as [|y l].
    - simpl. reflexivity.
    - destruct (in_dec string_dec name (present (map key (y :: l)))) as [_|Hn].
      + exact IHl.
      + exfalso. apply Hn. apply In_present. inversion Hl' as [|? ? Hy _]; subst.
        simpl. left. exact Hy. }
  unfold group_keys. rewrite (Hkeys _ H). simpl. f_equal. f_equal.
  assert (Hall : forall l, Forall (fun x => key x = Some name) l ->
                           filter (has_key key name) l = l).
  { induction l as [|x l IHl]; intros Hl; [reflexivity|].
    inversion Hl as [|? ? Hx Hl']; subst. simpl.
    unfold has_key at 1. rewrite Hx, String.eqb_refl, (IHl Hl'). reflexivity. }
  exact (Hall _ H).
Qed.

Lemma single_document fuel name r image_selected :
  Forall (fun x => doc_title x = Some name) (r :: image_selected) ->
  image_between_selected fuel (r :: image_selected)
  = document_gaps fuel name (r :: image_selected) [].
Proof.
  intros H. unfold image_between_selected.
  rewrite (groupby_single doc_title name r image_selected H). simpl.
  destruct (document_gaps fuel name (r :: image_selected) []); reflexivity.
Qed.

(** Records without a document title never reach the gap loop. *)
Lemma missing_title_excluded fuel image_selected :
  image_between_selected fuel image_selected
  = image_between_selected fuel (filter (has_title doc_title) image_selected).
Proof.
  unfold image_between_selected.
  rewrite <- (groupby_drops_missing doc_title image_selected). reflexivity.
Qed.

(** ** C3 *)

(** The three documents of the spec: selected pages {1,2,5} give the gap
    pages 3 and 4 in that order, {1,2,3} and {5} give none, whatever the
    order of the rows. *)
Lemma gaps_of_1_2_5 fuel name r image_selected pages :
  Forall (fun x => doc_title x = Some name) (r :: image_selected) ->
  map page_nr (r :: image_selected) = int_cells pages ->
  Permutation pages [1; 2; 5] -> (5 <= fuel)%nat ->
  image_between_selected fuel (r :: image_selected)
  = Some [(name, Int 3); (name, Int 4)].
Proof.
  intros Hdoc Hcol Hp Hfuel. rewrite (single_document fuel name r _ Hdoc).
  rewrite (document_gaps_ascending fuel name _ pages [1; 2; 5] [] Hcol Hp).
  - reflexivity.
  - repeat constructor.
  - repeat (apply Forall_cons; [lia|]). apply Forall_nil.
Qed.

Lemma gaps_of_1_2_3 fuel name r image_selected pages :
  Forall (fun x => doc_title x = Some name) (r :: image_selected) ->
  map page_nr (r :: image_selected) = int_cells pages ->
  Permutation pages [1; 2; 3] -> (3 <= fuel)%nat ->
  image_between_selected fuel (r :: image_selected) = Some [].
Proof.
  intros Hdoc Hcol Hp Hfuel. rewrite (single_document fuel name r _ Hdoc).
  rewrite (document_gaps_ascending fuel name _ pages [1; 2; 3] [] Hcol Hp).
  - reflexivity.
  - repeat constructor.
  - repeat (apply Forall_cons; [lia|]). apply Forall_nil.
Qed.

Lemma gaps_of_5 fuel name r :
  doc_title r = Some name -> page_nr r = Some (Int 5) ->
  image_between_selected fuel [r] = Some [].
Proof.
  intros Hdoc Hp. rewrite (single_document fuel name r []).
  - unfold document_gaps. simpl. rewrite Hp. reflexivity.
  - constructor; [exact Hdoc|constructor].
Qed.

Example gaps_of_1_2_5_rows :
  image_between_selected 5 (pages_of "HGB_1_001_001" [5; 1; 2])
  = Some [("HGB_1_001_001", Int 3); ("HGB_1_001_001", Int 4)].
Proof.
  apply (gaps_of_1_2_5 5 "HGB_1_001_001" _ _ [5; 1; 2]).
  - repeat constructor.
  - reflexivity.
  - apply (Permutation_cons_app [1; 2] [] 5). apply Permutation_refl.
  - lia.
Qed.

(** C3, where the code leaves the claim: a document whose selected pages
    are 0 and 3.  The pages 1 and 2 lie strictly between two consecutive
    selected pages, and no gap is emitted, with any fuel. *)
Theorem no_gap_after_page_zero :
  forall fuel,
    annotate ["HGB_1_001_001_000.jpg"; "HGB_1_001_001_003.jpg"]
    = pages_of "HGB_1_001_001" [0; 3]
    /\ pages_between 0 3 = [1; 2]
    /\ image_between_selected fuel
         (annotate ["HGB_1_001_001_000.jpg"; "HGB_1_001_001_003.jpg"])
       = Some [].
Proof. intros fuel. repeat split. Qed.

(** ** C5 *)

(** A walk that meets a missing page number after a page that is not 0
    does not end. *)
Lemma iterrows_missing fuel name last c rest between :
  last <> 0 -> is_missing c = true ->
  iterrows fuel name (c :: rest) (Some (Int last)) between = None.
Proof.
  intros H0 Hc. cbn [iterrows falsy].
  destruct (Z.eqb_spec last 0) as [E|_]; [contradiction|].
  replace (cell_is c (add1 (Int last))) with false
    by (destruct c as [[z|]|]; [discriminate|reflexivity|reflexivity]).
  rewrite (while_between_missing fuel name _ c between Hc). reflexivity.
Qed.

(** C5, where the code leaves the claim: a selection of two images of one
    document, the second without a page number.  The record is in the
    group, its page number is NaN, and the gap loop does not end: no fuel
    gives a result. *)
Theorem missing_page_nr_stays_in_group :
  forall fuel,
    annotate ["HGB_1_001_001_001.jpg"; "HGB_1_001_001.png"]
    = [ {| filename := "HGB_1_001_001_001.jpg";
           doc_title := Some "HGB_1_001_001"; page_nr := Some (Int 1) |};
        {| filename := "HGB_1_001_001.png";
           doc_title := Some "HGB_1_001_001"; page_nr := Some NaN |} ]
    /\ groupby doc_title
         (annotate ["HGB_1_001_001_001.jpg"; "HGB_1_001_001.png"])
       = [("HGB_1_001_001",
           annotate ["HGB_1_001_001_001.jpg"; "HGB_1_001_001.png"])]
    /\ image_between_selected fuel
         (annotate ["HGB_1_001_001_001.jpg"; "HGB_1_001_001.png"])
       = None.
Proof.
  intros fuel. split; [reflexivity|]. split; [reflexivity|].
  change (match iterrows fuel "HGB_1_001_001" [Some (Int 1); Some NaN] None []
          with Some b => Some b | None => None end = None).
  rewrite iterrows_first, iterrows_missing; [reflexivity|lia|reflexivity].
Qed.

(** ** C10 *)

Lemma iterrows_falsy fuel name c pages last between :
  falsy last = true ->
  iterrows fuel name (c :: pages) last between
  = iterrows fuel name pages c between.
Proof.
  intros H. cbn [iterrows]. destruct last as [n|]; [|reflexivity].
  rewrite H. reflexivity.
Qed.

(** A retained page 0 and the state before the first row are the same
    state of the walk. *)
Lemma iterrows_zero_is_start fuel name pages between :
  iterrows fuel name pages (Some (Int 0)) between
  = iterrows fuel name pages None between.
Proof. destruct pages as [|c pages]; reflexivity. Qed.

(** C10: when the sorted page numbers of a document start with 0, the walk
    takes the next selected page [p] as a first page again: nothing is
    emitted between 0 and [p], whatever lies between them, and the walk goes
    on from [p] as it does for the document without its page 0. *)
Theorem page_zero_is_sentinel :
  forall fuel name group p rest between,
    sort_values (map page_nr group) = Some (Int 0) :: p :: rest ->
    document_gaps fuel name group between
    = iterrows fuel name rest p between
    /\ document_gaps fuel name group between
       = iterrows fuel name (p :: rest) None between.
Proof.
  intros fuel name group p rest between Hsorted.
  unfold document_gaps. rewrite Hsorted.
  split; [|symmetry];
    (etransitivity; [apply iterrows_falsy; reflexivity|]);
    reflexivity.
Qed.

Lemma page_zero_is_sentinel_witness :
  sort_values (map page_nr (pages_of "HGB_1_001_001" [6; 0; 3]))
  = Some (Int 0) :: Some (Int 3) :: [Some (Int 6)]
  /\ document_gaps 10 "HGB_1_001_001" (pages_of "HGB_1_001_001" [6; 0; 3]) []
     = iterrows 10 "HGB_1_001_001" [Some (Int 6)] (Some (Int 3)) []
  /\ document_gaps 10 "HGB_1_001_001" (pages_of "HGB_1_001_001" [6; 0; 3]) []
     = Some [("HGB_1_001_001", Int 4); ("HGB_1_001_001", Int 5)].
Proof.
  split; [reflexivity|].
  destruct (page_zero_is_sentinel 10 "HGB_1_001_001"
              (pages_of "HGB_1_001_001" [6; 0; 3]) (Some (Int 3))
              [Some (Int 6)] [] eq_refl) as [H1 H2].
  split; [exact H1|reflexivity].
Defined.

(** ** C6 *)

Lemma get_filename_missing_page doc_title :
  get_filename doc_title None = None.
Proof. reflexivity. Qed.

(** C6, where the code leaves the claim: with a missing document title and
    a page number, [get_filename] returns a filename that spells the absent
    title [None]; it returns [None] for no page number at all. *)
Theorem get_filename_missing_title :
  get_filename None (Some 7) = Some "None_007.jpg"
  /\ forall p, get_filename None (Some p)
               = Some ("None_" ++ format_03 p ++ ".jpg").
Proof. split; [reflexivity|]. intros p. reflexivity. Qed.

(** ** C7 *)

Lemma n_pages_groups imagelist :
  n_pages imagelist
  = map (fun k => (k, column_max
                        (map page_nr (filter (has_key doc_title k) imagelist))))
        (group_keys (map doc_title imagelist)).
Proof. unfold n_pages, groupby. rewrite map_map. reflexivity. Qed.

Lemma find_entry {V} (f : string -> V) t keys :
  In t keys ->
  find (fun e => (fst e =? t)%string) (map (fun k => (k, f k)) keys)
  = Some (t, f t).
Proof.
  induction keys as [|k keys IH]; simpl; [intros []|].
  destruct (String.eqb_spec k t) as [->|Hne]; [reflexivity|].
  intros [E|Hin]; [contradiction|exact (IH Hin)].
Qed.

Lemma find_no_entry {V} (f : string -> V) t keys :
  ~ In t keys ->
  find (fun e => (fst e =? t)%string) (map (fun k => (k, f k)) keys) = None.
Proof.
  induction keys as [|k keys IH]; simpl; [reflexivity|].
  intros Hn. destruct (String.eqb_spec k t) as [->|Hne]; [tauto|].
  apply IH. tauto.
Qed.


Lemma column_max_fold zs acc :
  fold_left (fun acc z => Some (match acc with
                                | Some m => Z.max m z
                                | None => z
                                end)) zs (Some acc)
  = Some (fold_left Z.max zs acc).
Proof.
  revert acc. induction zs as [|z zs IH]; intros acc; simpl; [reflexivity|].
  apply IH.
Qed.

Lemma fold_max_spec zs acc :
  let m := fold_left Z.max zs acc in
  (m = acc \/ In m zs) /\ acc <= m /\ Forall (fun z => z <= m) zs.
Proof.
  revert acc. induction zs as [|z zs IH]; intros acc; simpl.
  - split; [left; reflexivity|]. split; [lia|constructor].
  - destruct (IH (Z.max acc z)) as [Hin [Hle Hall]].
    set (m := fold_left Z.max zs (Z.max acc z)) in *.
    split; [|split].
    + destruct Hin as [E|Hin]; [|right; right; exact Hin].
      destruct (Z.max_spec acc z) as [[_ Hm]|[_ Hm]].
      * right. left. congruence.
      * left. congruence.
    + lia.
    + constructor; [lia|exact Hall].
Qed.

(** [column_max] skips the missing values: it is missing when the column
    has no integer, and otherwise the greatest integer of the column. *)
Lemma column_max_spec pages :
  match column_max pages with
  | None => integers pages = []
  | Some m => In m (integers pages) /\ Forall (fun z => z <= m) (integers pages)
  end.
Proof.
  unfold column_max. destruct (integers pages) as [|z zs]; simpl; [reflexivity|].
  rewrite column_max_fold.
  destruct (fold_max_spec zs z) as [Hin [Hle Hall]]. split.
  - destruct Hin as [E|Hin]; [left; symmetry; exact E|right; exact Hin].
  - constructor; assumption.
Qed.





(** A document absent from the image list has no entry, and the join gives
    it the same missing [nr_of_pages]. *)
Lemma nr_of_pages_absent imagelist r t :
  doc_title r = Some t -> ~ In (Some t) (map doc_title imagelist) ->
  nr_of_pages (n_pages imagelist) r = None.
Proof.
  intros Hr Ht. unfold nr_of_pages. rewrite Hr, n_pages_groups.
  rewrite find_no_entry; [reflexivity|].
  rewrite In_group_keys. exact Ht.
Qed.

(** ** Sampler *)


Section SamplerFacts.
Context {rng : Type} (choose : rng -> nat -> nat -> list Z * rng).

Lemma random_sample_too_large g n k :
  (n < k)%nat -> random_sample choose g n k = Raise ValueError.
Proof.
  intros H. unfold random_sample.
  destruct (Nat.leb_spec k n); [lia|reflexivity].
Qed.

Lemma sample_rows_too_large {A} g (frame : list A) k :
  (List.length frame < k)%nat -> sample_rows choose g frame k = Raise ValueError.
Proof.
  intros H. unfold sample_rows. rewrite random_sample_too_large by exact H.
  reflexivity.
Qed.

(** The sample holds the rows at the drawn positions, in the order in
    which [random.sample] returned them. *)
Lemma sample_rows_drawn {A} g (frame : list A) k :
  (k <= List.length frame)%nat ->
  Forall (fun i => - Z.of_nat (List.length frame) <= i
                   < Z.of_nat (List.length frame))
         (fst (choose g (List.length frame) k)) ->
  exists rows,
    sample_rows choose g frame k
    = Ok (rows, snd (choose g (List.length frame) k))
    /\ Forall2 (fun i r => row_at frame i = Some r)
               (fst (choose g (List.length frame) k)) rows.
Proof.
  intros Hk Hdrawn. unfold sample_rows, random_sample.
  destruct (Nat.leb_spec k (List.length frame)); [|lia]. simpl.
  destruct (iloc_total frame _ Hdrawn) as [rows Hrows].
  exists rows. rewrite Hrows. simpl. split; [reflexivity|].
  apply iloc_rows, Hrows.
Qed.
End SamplerFacts.

(** ** C4 *)

(** C4, where the code leaves the claim: with fewer than 1000 rows, the
    sample of the selection, of the image list and of the user hotspot
    raise [ValueError]; only the sample of the gap rows, guarded by its
    [if], returns the frame as it is. *)
Theorem small_population_raises :
  forall (rng : Type) (choose : rng -> nat -> nat -> list Z * rng) (g : rng)
         (A : Type) (frame : list A),
    (List.length frame < sample_size)%nat ->
    image_selected_sample choose g frame = Raise ValueError
    /\ image_sample choose g frame = Raise ValueError
    /\ user_image_selected_sample choose g frame = Raise ValueError
    /\ image_between_selected_sample choose g frame = Ok (frame, g).
Proof.
  intros rng choose g A frame H.
  unfold image_selected_sample, image_sample, user_image_selected_sample.
  rewrite (sample_rows_too_large choose g frame sample_size H).
  repeat split. unfold image_between_selected_sample.
  destruct (Nat.ltb_spec sample_size (List.length frame)); [lia|reflexivity].
Qed.

Lemma small_population_raises_witness :
  image_selected_sample MT19937.choose (MT19937.seed 1) ["a.jpg"; "b.jpg"; "c.jpg"]
  = Raise ValueError
  /\ image_sample MT19937.choose (MT19937.seed 1) ["a.jpg"; "b.jpg"; "c.jpg"]
     = Raise ValueError
  /\ user_image_selected_sample MT19937.choose (MT19937.seed 1)
       ["a.jpg"; "b.jpg"; "c.jpg"]
     = Raise ValueError
  /\ image_between_selected_sample MT19937.choose (MT19937.seed 1)
       ["a.jpg"; "b.jpg"; "c.jpg"]
     = Ok (["a.jpg"; "b.jpg"; "c.jpg"], MT19937.seed 1).
Proof.
  apply (small_population_raises MT19937.state MT19937.choose (MT19937.seed 1)
           string ["a.jpg"; "b.jpg"; "c.jpg"]).
  unfold sample_size. simpl. lia.
Defined.

(** ** C8 *)

(** The generator after [random.seed(1)] draws 137, 582, 867, 821, ...
    from [range(1001)]. *)
Lemma seed_1_draws :
  firstn 4 (fst (MT19937.choose (MT19937.seed 1) 1001 1000))
  = [137; 582; 867; 821]
  /\ List.length (fst (MT19937.choose (MT19937.seed 1) 1001 1000)) = 1000%nat
  /\ forallb (in_bounds 1001) (fst (MT19937.choose (MT19937.seed 1) 1001 1000))
     = true.
Proof. vm_compute. repeat split. Qed.




(** ** More on the parser *)

Lemma append_empty_r s : s ++ "" = s.
Proof. induction s as [|c s IH]; simpl; [reflexivity|]. rewrite IH. reflexivity. Qed.

Lemma append_assoc_string (a b c : string) : (a ++ b) ++ c = a ++ (b ++ c).
Proof. induction a as [|x a IH]; simpl; [reflexivity|]. rewrite IH. reflexivity. Qed.

(** What [match_here] returns is a prefix of the text, and the pattern
    matches the whole of it. *)
Lemma match_here_prefix_of p :
  forall s m, Re.match_here p s = Some m ->
              Re.match_here p m = Some m /\ exists post, s = m ++ post.
Proof.
  induction p as [|a p IH]; intros s m H; simpl in H.
  - injection H as <-. split; [reflexivity|]. exists s. reflexivity.
  - destruct s as [|c s]; [discriminate|].
    destruct (Re.atom_matches a c) eqn:Ea; [|discriminate].
    destruct (Re.match_here p s) as [m'|] eqn:Em; [|discriminate].
    simpl in H. injection H as <-.
    destruct (IH s m' Em) as [Hfull [post ->]]. split.
    + simpl. rewrite Ea, Hfull. reflexivity.
    + exists post. reflexivity.
Qed.

(** What [search] returns occurs in the text, and the pattern matches the
    whole of it. *)
Lemma search_occurs p :
  forall s m, Re.search p s = Some m ->
              Re.match_here p m = Some m /\ exists pre post, s = pre ++ m ++ post.
Proof.
  induction s as [|c s IH]; intros m H.
  - simpl in H. destruct (Re.match_here p "") as [m'|] eqn:Em; [|discriminate].
    injection H as <-. destruct (match_here_prefix_of p "" m' Em) as [Hf [post Hs]].
    split; [exact Hf|]. exists "", post. exact Hs.
  - simpl in H. destruct (Re.match_here p (String c s)) as [m'|] eqn:Em.
    + injection H as <-.
      destruct (match_here_prefix_of p _ m' Em) as [Hf [post Hs]].
      split; [exact Hf|]. exists "", post. exact Hs.
    + destruct (IH m H) as [Hf [pre [post ->]]].
      split; [exact Hf|]. exists (String c pre), post. reflexivity.
Qed.

Lemma digit_value_range c : Re.is_digit c = true -> 0 <= digit_value c <= 9.
Proof.
  unfold Re.is_digit, digit_value. intros H.
  apply andb_true_iff in H. destruct H as [H1 H2].
  apply N.leb_le in H1, H2. lia.
Qed.

Lemma int_three_digits a b c :
  Re.is_digit a = true -> Re.is_digit b = true -> Re.is_digit c = true ->
  int (String a (String b (String c "")))
  = Some (100 * digit_value a + 10 * digit_value b + digit_value c).
Proof.
  intros Ha Hb Hc. unfold int. cbn [int_digits]. rewrite Ha, Hb, Hc.
  f_equal. lia.
Qed.

(** X1: a page number that [get_page_nr] returns lies between 0 and 999. *)
Theorem get_page_nr_range :
  forall (filename : string) (p : Z),
    get_page_nr filename = Some p -> 0 <= p <= 999.
Proof.
  intros filename p H. unfold get_page_nr in H.
  destruct (Re.search page_nr_pattern filename) as [m|] eqn:Es; [|discriminate].
  destruct (search_occurs _ _ _ Es) as [Hfull _].
  unfold page_nr_pattern in Hfull.
  cbn [Re.lits Re.times list_ascii_of_string map repeat app] in Hfull.
  repeat match goal with
  | H : Re.match_here (_ :: _) _ = Some _ |- _ =>
      apply full_match_cons in H;
      let c := fresh "c" in let t' := fresh "t" in let Hc := fresh "Hc" in
      destruct H as [c [t' [-> [Hc H]]]]; simpl in Hc
  end.
  cbn [substring] in H. rewrite int_three_digits in H by assumption.
  match type of H with
  | Some ?v = Some p => assert (E : p = v) by congruence
  end.
  clear H.
  repeat match goal with
  | H : Re.is_digit _ = true |- _ => apply digit_value_range in H
  end.
  lia.
Qed.

Lemma get_page_nr_range_witness : 0 <= 7 <= 999.
Proof. apply (get_page_nr_range "HGB_1_001_002_007.jpg" 7). reflexivity. Defined.

(** X2: a document title that [get_doc_title] returns has the shape
    [HGB_d_ddd_ddd] (13 characters), occurs in the filename, and is its own
    document title. *)
Theorem get_doc_title_valid :
  forall (filename t : string),
    get_doc_title filename = Some t ->
    valid_title t
    /\ String.length t = 13%nat
    /\ (exists pre post, filename = pre ++ t ++ post)
    /\ get_doc_title t = Some t.
Proof.
  intros filename t H. unfold get_doc_title in H.
  destruct (search_occurs _ _ _ H) as [Hfull Hocc].
  split; [exact Hfull|]. split; [|split; [exact Hocc|]].
  - destruct (valid_title_shape t Hfull)
      as [d1 [d2 [d3 [d4 [d5 [d6 [d7 [_ ->]]]]]]]]. reflexivity.
  - unfold get_doc_title. rewrite <- (append_empty_r t) at 1.
    apply search_prefix. exact Hfull.
Qed.

Lemma get_doc_title_valid_witness :
  valid_title "HGB_1_001_002"
  /\ String.length "HGB_1_001_002" = 13%nat
  /\ (exists pre post, "x/HGB_1_001_002_007.jpg" = pre ++ "HGB_1_001_002" ++ post)
  /\ get_doc_title "HGB_1_001_002" = Some "HGB_1_001_002".
Proof.
  apply (get_doc_title_valid "x/HGB_1_001_002_007.jpg" "HGB_1_001_002").
  reflexivity.
Defined.

Lemma four_digits_upto_9999 :
  forallb four_digits (map (fun i => 1000 + Z.of_nat i) (seq 0 (Z.to_nat 9000)))
  = true.
Proof. vm_compute. reflexivity. Qed.

Ltac decide_digit_atom :=
  match goal with
  | H : Re.is_digit ?d = true |- context [negb (Ascii.eqb ?d Re.newline)] =>
      rewrite (digit_not_lit d Re.newline H eq_refl); cbn [negb]
  | _ => decide_atom
  end.

Ltac run_digit_match :=
  repeat (rewrite match_here_cons; cbn [Re.atom_matches]; decide_digit_atom;
          cbv iota);
  reflexivity.

Lemma search_page_nr_four d1 d2 d3 d4 d5 d6 d7 a b c d :
  Forall (fun d => Re.is_digit d = true) [d1; d2; d3; d4; d5; d6; d7; a; b; c; d] ->
  Re.search page_nr_pattern
    (String "H" (String "G" (String "B" (String "_" (String d1
      (String "_" (String d2 (String d3 (String d4 (String "_"
      (String d5 (String d6 (String d7 (String "_" (String a (String b
      (String c (String d ".jpg"))))))))))))))))))
  = Some (String b (String c (String d ".jpg"))).
Proof.
  intros H.
  repeat match goal with
  | H : Forall _ (_ :: _) |- _ =>
      let Hd := fresh "Hd" in let H' := fresh "H" in
      inversion H as [|? ? Hd H']; subst; clear H
  end.
  unfold page_nr_pattern.
  cbn [Re.lits Re.times list_ascii_of_string map repeat app].
  repeat (rewrite search_step by run_digit_match).
  apply search_found. run_digit_match.
Qed.

(** X3: a page number from 1000 to 9999 does not survive the round trip:
    [get_filename] writes its four digits, and [get_page_nr] reads the last
    three, the number modulo 1000; the document title is still recovered. *)
Theorem filename_round_trip_four_digits :
  forall (t : string) (p : Z),
    valid_title t -> 1000 <= p <= 9999 ->
    exists f,
      get_filename (Some t) (Some p) = Some f
      /\ get_doc_title f = Some t
      /\ get_page_nr f = Some (p mod 1000).
Proof.
  intros t p Ht Hp.
  exists (t ++ "_" ++ format_03 p ++ ".jpg"). split; [reflexivity|]. split.
  - unfold get_doc_title. apply search_prefix. exact Ht.
  - assert (H : four_digits p = true).
    { apply (proj1 (forallb_forall _ _) four_digits_upto_9999).
      apply in_map_iff. exists (Z.to_nat (p - 1000)). split; [cbv beta; lia|].
      apply in_seq. lia. }
    unfold four_digits in H.
    destruct (format_03 p) as [|a [|b [|c [|d [|? ?]]]]]; try discriminate.
    apply andb_true_iff in H. destruct H as [H Hint].
    apply andb_true_iff in H. destruct H as [H Hd].
    apply andb_true_iff in H. destruct H as [H Hc].
    apply andb_true_iff in H. destruct H as [Ha Hb].
    destruct (valid_title_shape t Ht)
      as [d1 [d2 [d3 [d4 [d5 [d6 [d7 [Hds ->]]]]]]]].
    unfold get_page_nr. cbn [append].
    rewrite (search_page_nr_four d1 d2 d3 d4 d5 d6 d7 a b c d).
    + cbn [substring].
      destruct (int (String b (String c (String d "")))) as [n|]; [|discriminate].
      apply Z.eqb_eq in Hint. congruence.
    + repeat match goal with
      | H : Forall _ (_ :: _) |- _ =>
          let Hd := fresh "Hd" in let H' := fresh "H" in
          inversion H as [|? ? Hd H']; subst; clear H
      end.
      repeat (apply Forall_cons; [assumption|]). apply Forall_nil.
Qed.

Lemma filename_round_trip_four_digits_witness :
  exists f,
    get_filename (Some "HGB_1_001_002") (Some 1234) = Some f
    /\ get_doc_title f = Some "HGB_1_001_002"
    /\ get_page_nr f = Some (1234 mod 1000).
Proof.
  apply (filename_round_trip_four_digits "HGB_1_001_002" 1234);
    [reflexivity|lia].
Defined.

(** ** More on the cluster resolver *)

Lemma cluster_images_missing h c :
  has_label h c = false -> cluster_images h c = Raise IndexError.
Proof.
  unfold has_label, cluster_images. intros H.
  destruct (find (fun r => (label r =? c)%string) h) as [r|] eqn:E; [|reflexivity].
  apply find_some in E. destruct E as [Hin Hr].
  assert (existsb (fun r => (label r =? c)%string) h = true)
    by (apply existsb_exists; eauto).
  congruence.
Qed.

Lemma collect_index_missing h c :
  forall cluster_of_interest image_index,
    In c cluster_of_interest -> has_label h c = false ->
    collect_index h cluster_of_interest image_index = Raise IndexError.
Proof.
  induction cluster_of_interest as [|c' rest IH]; intros image_index Hin Hc.
  - destruct Hin.
  - simpl. destruct (has_label h c') eqn:Hc'.
    + rewrite (cluster_images_found h c' Hc'). simpl.
      destruct Hin as [->|Hin]; [congruence|]. exact (IH _ Hin Hc).
    + rewrite (cluster_images_missing h c' Hc'). reflexivity.
Qed.

Lemma collect_index_ok h :
  forall cluster_of_interest image_index idx,
    collect_index h cluster_of_interest image_index = Ok idx ->
    Forall (fun c => has_label h c = true) cluster_of_interest
    /\ idx = (image_index ++ index_lists h cluster_of_interest)%list.
Proof.
  intros cois image_index idx H.
  assert (Hall : Forall (fun c => has_label h c = true) cois).
  { apply Forall_forall. intros c Hc.
    destruct (has_label h c) eqn:E; [reflexivity|].
    rewrite (collect_index_missing h c cois image_index Hc E) in H. discriminate. }
  split; [exact Hall|].
  rewrite (collect_index_valid h cois image_index Hall) in H. congruence.
Qed.

Lemma in_bounds_position n i : in_bounds n i = false -> position n i = None.
Proof.
  unfold in_bounds, position. intros H. apply andb_false_iff in H.
  destruct ((0 <=? i) && (i <? Z.of_nat n)) eqn:E1.
  - apply andb_true_iff in E1. lia.
  - destruct ((- Z.of_nat n <=? i) && (i <? 0)) eqn:E2; [|reflexivity].
    apply andb_true_iff in E2. lia.
Qed.

Lemma iloc_out_of_bounds {A} (frame : list A) i :
  forall positions,
    In i positions -> in_bounds (List.length frame) i = false ->
    iloc frame positions = Raise IndexError.
Proof.
  induction positions as [|j rest IH]; intros Hin Hi; [destruct Hin|].
  simpl. destruct (position (List.length frame) j) as [k|] eqn:Ej; [|reflexivity].
  destruct (nth_error frame k) as [r|]; [|reflexivity].
  destruct Hin as [->|Hin].
  - rewrite (in_bounds_position _ _ Hi) in Ej. discriminate.
  - rewrite (IH Hin Hi). reflexivity.
Qed.

(** X4: a label of interest that names no cluster makes
    [get_selected_images] raise [IndexError], whatever the other labels and
    the image list are. *)
Theorem get_selected_images_unknown_label :
  forall (h : hotspot) (imagelist : list string)
         (cluster_of_interest : list string) (c : string),
    In c cluster_of_interest -> has_label h c = false ->
    get_selected_images h imagelist cluster_of_interest = Raise IndexError.
Proof.
  intros h imagelist cois c Hin Hc. unfold get_selected_images.
  rewrite (collect_index_missing h c cois [] Hin Hc). reflexivity.
Qed.

Lemma get_selected_images_unknown_label_witness :
  get_selected_images [ {| label := "Cluster 8"; images := [0] |} ]
    ["a.jpg"] ["Cluster 8"; "Cluster 9"] = Raise IndexError.
Proof.
  apply (get_selected_images_unknown_label _ _ _ "Cluster 9").
  - right. left. reflexivity.
  - reflexivity.
Defined.

(** X5: when every label names a cluster, an index that is no position of
    the image list (neither in [0, n) nor, counted from the end, in
    [-n, 0)) makes [get_selected_images] raise [IndexError]: no partial
    selection is returned. *)
Theorem get_selected_images_out_of_bounds :
  forall (h : hotspot) (imagelist : list string)
         (cluster_of_interest : list string) (i : Z),
    Forall (fun c => has_label h c = true) cluster_of_interest ->
    In i (index_lists h cluster_of_interest) ->
    in_bounds (List.length imagelist) i = false ->
    get_selected_images h imagelist cluster_of_interest = Raise IndexError.
Proof.
  intros h imagelist cois i Hlabels Hin Hi. unfold get_selected_images.
  rewrite (collect_index_valid h cois [] Hlabels). simpl.
  exact (iloc_out_of_bounds imagelist i _ Hin Hi).
Qed.

Lemma get_selected_images_out_of_bounds_witness :
  get_selected_images [ {| label := "Cluster 8"; images := [0; 2] |} ]
    ["a.jpg"; "b.jpg"] ["Cluster 8"] = Raise IndexError.
Proof.
  apply (get_selected_images_out_of_bounds _ _ _ 2).
  - repeat constructor.
  - right. left. reflexivity.
  - reflexivity.
Defined.

Lemma index_lists_app h l1 l2 :
  index_lists h (l1 ++ l2) = (index_lists h l1 ++ index_lists h l2)%list.
Proof. unfold index_lists. apply flat_map_app. Qed.

Lemma get_selected_images_ok h imagelist cluster_of_interest image_selected :
  get_selected_images h imagelist cluster_of_interest = Ok image_selected ->
  Forall (fun c => has_label h c = true) cluster_of_interest
  /\ Forall2 (fun i f => row_at imagelist i = Some f)
             (index_lists h cluster_of_interest) image_selected.
Proof.
  unfold get_selected_images. intros H. apply bind_ok in H.
  destruct H as [idx [Hc Hi]].
  destruct (collect_index_ok h _ _ _ Hc) as [Hlabels ->]. simpl in Hi.
  split; [exact Hlabels|]. apply iloc_rows, Hi.
Qed.

(** X6: selecting two lists of labels one after the other is selecting
    their concatenation: when both selections are returned, the selection
    for [l1 ++ l2] is the first followed by the second. *)
Theorem get_selected_images_app :
  forall (h : hotspot) (imagelist : list string) (l1 l2 : list string)
         (s1 s2 : list string),
    get_selected_images h imagelist l1 = Ok s1 ->
    get_selected_images h imagelist l2 = Ok s2 ->
    get_selected_images h imagelist (l1 ++ l2) = Ok (s1 ++ s2)%list.
Proof.
  intros h imagelist l1 l2 s1 s2 H1 H2.
  apply get_selected_images_ok in H1. destruct H1 as [Hl1 Hr1].
  apply get_selected_images_ok in H2. destruct H2 as [Hl2 Hr2].
  unfold get_selected_images.
  rewrite (collect_index_valid h (l1 ++ l2) []) by (apply Forall_app; auto).
  simpl. apply iloc_rows. rewrite index_lists_app.
  apply Forall2_app; assumption.
Qed.

Lemma get_selected_images_app_witness :
  get_selected_images
    [ {| label := "Cluster 8"; images := [1] |};
      {| label := "Cluster 9"; images := [0; 1] |} ]
    ["a.jpg"; "b.jpg"] (["Cluster 8"] ++ ["Cluster 9"])
  = Ok (["b.jpg"] ++ ["a.jpg"; "b.jpg"])%list.
Proof.
  apply (get_selected_images_app
           [ {| label := "Cluster 8"; images := [1] |};
             {| label := "Cluster 9"; images := [0; 1] |} ]
           ["a.jpg"; "b.jpg"] ["Cluster 8"] ["Cluster 9"]); reflexivity.
Defined.

(** X7: a selection has as many rows as the index lists of the clusters
    of interest have entries together, repeated and shared positions
    counted each time; nothing bounds it by the size of the image list. *)
Theorem get_selected_images_length :
  forall (h : hotspot) (imagelist : list string)
         (cluster_of_interest : list string) (image_selected : list string),
    get_selected_images h imagelist cluster_of_interest = Ok image_selected ->
    List.length image_selected
    = List.length (index_lists h cluster_of_interest).
Proof.
  intros h imagelist cois sel H.
  apply get_selected_images_ok in H. destruct H as [_ Hr].
  symmetry. exact (Forall2_length Hr).
Qed.

Lemma get_selected_images_length_witness :
  List.length ["a.jpg"; "a.jpg"; "a.jpg"]
  = List.length
      (index_lists [ {| label := "Cluster 8"; images := [0; 0; -1] |} ]
                   ["Cluster 8"]).
Proof.
  apply (get_selected_images_length
           [ {| label := "Cluster 8"; images := [0; 0; -1] |} ]
           ["a.jpg"] ["Cluster 8"] ["a.jpg"; "a.jpg"; "a.jpg"]).
  reflexivity.
Defined.

(** ** Annotation *)

Lemma page_column_length values :
  List.length (page_column values) = List.length values.
Proof. unfold page_column. destruct (forallb _ values); apply length_map. Qed.

Lemma page_column_cells values :
  Forall2 (fun v c => forall p, c = Some (Int p) <-> v = Some p)
          values (page_column values).
Proof.
  unfold page_column.
  destruct (forallb (fun v => match v with None => true | Some _ => false end)
                    values) eqn:E.
  - pose proof (proj1 (forallb_forall _ _) E) as Hall. clear E.
    induction values as [|v values IH]; simpl; constructor.
    + intros p. specialize (Hall v (or_introl eq_refl)).
      destruct v; [discriminate|]. split; discriminate.
    + apply IH. intros x Hx. apply Hall. right. exact Hx.
  - clear E. induction values as [|v values IH]; simpl; constructor; [|exact IH].
    intros p. destruct v as [z|]; split; intros H; try discriminate;
      injection H as ->; reflexivity.
Qed.

Lemma combine_map_fst {A B} (l : list A) (l' : list B) :
  List.length l = List.length l' -> map fst (combine l l') = l.
Proof.
  revert l'. induction l as [|x l IH]; intros [|y l'] H; simpl in *;
    try discriminate; [reflexivity|].
  f_equal. apply IH. lia.
Qed.

(** X8: annotating keeps the rows and their order, gives each row the
    document title [get_doc_title] finds in its filename, and gives it the
    page number [p] exactly when [get_page_nr] finds [p] in its filename. *)
Theorem annotate_rows :
  forall (filenames : list string),
    map filename (annotate filenames) = filenames
    /\ Forall (fun r => doc_title r = get_doc_title (filename r)
                        /\ forall p, page_nr r = Some (Int p)
                                     <-> get_page_nr (filename r) = Some p)
              (annotate filenames).
Proof.
  intros filenames. unfold annotate. split.
  - rewrite map_map. simpl.
    change (map (fun x : string * cell => fst x)
                (combine filenames (page_column (map get_page_nr filenames))))
      with (map fst (combine filenames (page_column (map get_page_nr filenames)))).
    apply combine_map_fst. rewrite page_column_length, length_map. reflexivity.
  - pose proof (page_column_cells (map get_page_nr filenames)) as Hcells.
    remember (page_column (map get_page_nr filenames)) as cells eqn:Ec. clear Ec.
    revert cells Hcells.
    induction filenames as [|f filenames IH]; intros cells Hcells; simpl.
    + constructor.
    + destruct cells as [|c cells]; [constructor|].
      simpl in Hcells. inversion Hcells as [|? ? ? ? Hc Hrest]; subst.
      simpl. constructor; [|exact (IH cells Hrest)].
      simpl. split; [reflexivity|exact Hc].
Qed.

(** ** More on the document index *)

Lemma Sorted_insert_leb x l :
  Sorted (fun a b => String.leb a b = true) l ->
  Sorted (fun a b => String.leb a b = true) (insert String.leb x l).
Proof.
  induction 1 as [|y l Hs IH Hhd]; simpl.
  - repeat constructor.
  - destruct (String.leb x y) eqn:E.
    + constructor; [constructor; assumption|]. constructor. exact E.
    + constructor; [exact IH|].
      assert (Hyx : String.leb y x = true)
        by (destruct (String.leb_total x y) as [H|H]; congruence).
      destruct l as [|z l]; simpl.
      * constructor. exact Hyx.
      * destruct (String.leb x z); constructor; [exact Hyx|].
        inversion Hhd; assumption.
Qed.

Lemma Sorted_sort_leb l :
  Sorted (fun a b => String.leb a b = true) (sort String.leb l).
Proof.
  induction l as [|x l IH]; simpl; [constructor|].
  apply Sorted_insert_leb, IH.
Qed.

Lemma n_pages_keys imagelist :
  map fst (n_pages imagelist) = group_keys (map doc_title imagelist).
Proof. rewrite n_pages_groups, map_map. simpl. apply map_id. Qed.

(** X9: the table of page counts has exactly one entry for each document
    title of the image list and none for any other title, the entries in
    ascending order of the titles. *)
Theorem n_pages_one_entry_per_title :
  forall (imagelist : list image),
    NoDup (map fst (n_pages imagelist))
    /\ Sorted (fun a b => String.leb a b = true) (map fst (n_pages imagelist))
    /\ forall t, In t (map fst (n_pages imagelist))
                 <-> exists r, In r imagelist /\ doc_title r = Some t.
Proof.
  intros imagelist. rewrite n_pages_keys. split; [apply NoDup_group_keys|].
  split; [apply Sorted_sort_leb|].
  intros t. rewrite In_group_keys, in_map_iff. split.
  - intros [r [Hr Hin]]. eauto.
  - intros [r [Hin Hr]]. eauto.
Qed.

Lemma In_integers z pages : In z (integers pages) <-> In (Some (Int z)) pages.
Proof.
  induction pages as [|c pages IH]; simpl; [tauto|].
  destruct c as [[y|]|]; simpl; rewrite IH; intuition congruence.
Qed.

Lemma In_group {A} (key : A -> option string) k frame r :
  In r (filter (has_key key k) frame) <-> In r frame /\ key r = Some k.
Proof.
  rewrite filter_In. unfold has_key. split; intros [Hin H]; split; auto.
  - destruct (key r) as [k'|]; [|discriminate].
    apply String.eqb_eq in H. congruence.
  - rewrite H. apply String.eqb_refl.
Qed.

Lemma n_pages_In imagelist t v :
  In (t, v) (n_pages imagelist) <->
  In (Some t) (map doc_title imagelist)
  /\ v = column_max (map page_nr (filter (has_key doc_title t) imagelist)).
Proof.
  rewrite n_pages_groups, in_map_iff. split.
  - intros [k [E Hk]]. injection E as -> <-.
    split; [apply In_group_keys, Hk|reflexivity].
  - intros [Ht ->]. exists t. split; [reflexivity|apply In_group_keys, Ht].
Qed.

Lemma column_max_greatest frame t m :
  column_max (map page_nr (filter (has_key doc_title t) frame)) = Some m <->
  (exists r, In r frame /\ doc_title r = Some t /\ page_nr r = Some (Int m))
  /\ (forall r p, In r frame -> doc_title r = Some t ->
                  page_nr r = Some (Int p) -> p <= m).
Proof.
  pose proof (column_max_spec
                (map page_nr (filter (has_key doc_title t) frame))) as Hspec.
  assert (Hint : forall z,
             In z (integers (map page_nr (filter (has_key doc_title t) frame)))
             <-> exists r, In r frame /\ doc_title r = Some t
                           /\ page_nr r = Some (Int z)).
  { intros z. rewrite In_integers, in_map_iff. split.
    - intros [r [Hp Hr]]. apply In_group in Hr. destruct Hr. eauto.
    - intros [r [Hin [Ht Hp]]]. exists r. split; [exact Hp|].
      apply In_group. auto. }
  destruct (column_max _) as [m'|].
  - destruct Hspec as [Hin Hall]. split.
    + intros E. injection E as <-. split; [apply Hint, Hin|].
      intros r p Hr Ht Hp.
      apply (proj1 (Forall_forall _ _) Hall). apply Hint. eauto.
    + intros [Hex Hle]. f_equal.
      apply Hint in Hex. apply Hint in Hin. destruct Hin as [r [Hr [Ht Hp]]].
      pose proof (Hle r m' Hr Ht Hp).
      pose proof (proj1 (Forall_forall _ _) Hall m Hex) as H'. cbv beta in H'. lia.
  - split; [discriminate|]. intros [Hex _]. apply Hint in Hex.
    rewrite Hspec in Hex. destruct Hex.
Qed.

(** X10: an entry of the table with a page count [m] is the greatest page
    number of its document: some record of the document in the image list
    has page number [m], and none has a greater one; records with a missing
    page number play no part. *)
Theorem n_pages_greatest_page :
  forall (imagelist : list image) (t : string) (m : Z),
    In (t, Some m) (n_pages imagelist) <->
    (exists r, In r imagelist /\ doc_title r = Some t
               /\ page_nr r = Some (Int m))
    /\ (forall r p, In r imagelist -> doc_title r = Some t ->
                    page_nr r = Some (Int p) -> p <= m).
Proof.
  intros imagelist t m. rewrite n_pages_In, <- column_max_greatest. split.
  - intros [_ H]. symmetry. exact H.
  - intros H. split; [|symmetry; exact H].
    apply column_max_greatest in H. destruct H as [[r [Hr [Ht _]]] _].
    apply in_map_iff. exists r. auto.
Qed.

Lemma nr_of_pages_value imagelist r t :
  doc_title r = Some t ->
  nr_of_pages (n_pages imagelist) r
  = if in_dec string_dec t (group_keys (map doc_title imagelist))
    then column_max (map page_nr (filter (has_key doc_title t) imagelist))
    else None.
Proof.
  intros Hr. unfold nr_of_pages. rewrite Hr, n_pages_groups.
  destruct (in_dec string_dec t (group_keys (map doc_title imagelist))) as [Hin|Hn].
  - rewrite (find_entry _ t _ Hin). reflexivity.
  - rewrite (find_no_entry _ t _ Hn). reflexivity.
Qed.

(** X11: a selected record is kept as a last page exactly when it has a
    document title and a page number, and that page number is the greatest
    one of its document in the whole image list. *)
Theorem image_selected_last_greatest :
  forall (imagelist image_selected : list image) (r : image),
    In r (image_selected_last (n_pages imagelist) image_selected) <->
    In r image_selected
    /\ exists t p,
         doc_title r = Some t /\ page_nr r = Some (Int p)
         /\ (exists r', In r' imagelist /\ doc_title r' = Some t
                        /\ page_nr r' = Some (Int p))
         /\ (forall r' q, In r' imagelist -> doc_title r' = Some t ->
                          page_nr r' = Some (Int q) -> q <= p).
Proof.
  intros imagelist sel r. unfold image_selected_last. rewrite filter_In.
  split.
  - intros [Hin H]. split; [exact Hin|].
    destruct (page_nr r) as [[p|]|] eqn:Ep; try discriminate.
    destruct (nr_of_pages (n_pages imagelist) r) as [m|] eqn:En; [|discriminate].
    apply Z.eqb_eq in H. subst m.
    destruct (doc_title r) as [t|] eqn:Et;
      [|unfold nr_of_pages in En; rewrite Et in En; discriminate].
    exists t, p. split; [reflexivity|]. split; [reflexivity|].
    rewrite (nr_of_pages_value imagelist r t Et) in En.
    destruct (in_dec string_dec t _); [|discriminate].
    apply column_max_greatest, En.
  - intros [Hin [t [p [Et [Ep Hmax]]]]]. split; [exact Hin|].
    rewrite Ep, (nr_of_pages_value imagelist r t Et).
    apply column_max_greatest in Hmax.
    destruct (in_dec string_dec t _) as [_|Hn].
    + rewrite Hmax. apply Z.eqb_refl.
    + exfalso. apply Hn. apply In_group_keys.
      apply column_max_greatest in Hmax. destruct Hmax as [[r' [Hr' [Ht' _]]] _].
      apply in_map_iff. exists r'. auto.
Qed.

(** ** More on the gap loop *)

Lemma In_pages_between a b g : In g (pages_between a b) <-> a < g < b.
Proof.
  unfold pages_between. rewrite in_map_iff. split.
  - intros [i [<- Hi]]. apply in_seq in Hi. lia.
  - intros H. exists (Z.to_nat (g - a - 1)). split; [lia|].
    apply in_seq. lia.
Qed.

(** What the inner loop has emitted when it ends. *)
Lemma while_between_result fuel :
  forall name z c between out,
    while_between fuel name (Int z) (Some (Int c)) between = Some out ->
    z <= c /\ out = (between ++ gap_rows name (pages_between (z - 1) c))%list.
Proof.
  induction fuel as [|fuel IH]; intros name z c between out H; [discriminate|].
  cbn [while_between cell_is number_eqb add1] in H.
  destruct (Z.eqb_spec c z) as [->|Hne].
  - injection H as <-. split; [lia|].
    unfold pages_between. replace (Z.to_nat (z - (z - 1) - 1)) with O by lia.
    simpl. rewrite app_nil_r. reflexivity.
  - apply IH in H. destruct H as [Hle ->]. split; [lia|].
    rewrite <- app_assoc. f_equal. unfold pages_between.
    replace (Z.to_nat (c - (z - 1) - 1)) with (S (Z.to_nat (c - (z + 1 - 1) - 1)))
      by lia.
    cbn [seq map gap_rows app]. f_equal; [f_equal; f_equal; lia|].
    unfold gap_rows. rewrite <- seq_shift, !map_map.
    apply map_ext. intros i. f_equal. f_equal. lia.
Qed.

Lemma while_between_nan fuel :
  forall name c between, while_between fuel name NaN c between = None.
Proof.
  induction fuel as [|fuel IH]; intros name c between; simpl; [reflexivity|].
  destruct c as [[z|]|]; simpl; apply IH.
Qed.

(** A walk over missing values from a state that is missing or false
    emits nothing. *)
Lemma iterrows_all_missing fuel name :
  forall cells last between out,
    Forall (fun c => is_missing c = true) cells ->
    is_missing last = true \/ falsy last = true ->
    iterrows fuel name cells last between = Some out -> out = between.
Proof.
  induction cells as [|c cells IH]; intros last between out Hall Hlast H.
  - simpl in H. congruence.
  - inversion Hall as [|? ? Hc Hrest]; subst.
    destruct (falsy last) eqn:Ef.
    + rewrite (iterrows_falsy fuel name c cells last between Ef) in H.
      exact (IH c between out Hrest (or_introl Hc) H).
    + destruct Hlast as [Hm|Hf]; [|discriminate].
      destruct last as [[z|]|]; try discriminate.
      cbn [iterrows falsy] in H.
      replace (cell_is c (add1 NaN)) with false in H
        by (destruct c as [[z|]|]; reflexivity).
      rewrite while_between_nan in H. discriminate.
Qed.

(** Whenever the walk over a sorted column ends, each page it has emitted
    lies strictly between the state it started from or a page of the
    column, and a page of the column, and is none of them. *)
Lemma iterrows_sound fuel name missing :
  Forall (fun c => is_missing c = true) missing ->
  forall zs last between out,
    StronglySorted Z.le zs -> below last zs ->
    iterrows fuel name (int_cells zs ++ missing) last between = Some out ->
    exists gaps,
      out = (between ++ gap_rows name gaps)%list
      /\ forall g, In g gaps ->
           ~ In g zs
           /\ (forall l, last = Some (Int l) -> l < g)
           /\ (exists a, (last = Some (Int a) \/ In a zs) /\ a < g)
           /\ (exists b, In b zs /\ g < b).
Proof.
  intros Hmissing.
  induction zs as [|c zs IH]; intros last between out Hs Hb H.
  - simpl in H. destruct last as [[l|]|].
    + destruct missing as [|m missing].
      * simpl in H. injection H as <-. exists []. simpl. rewrite app_nil_r.
        split; [reflexivity|intros g []].
      * inversion Hmissing as [|? ? Hm Hrest]; subst.
        destruct (Z.eqb_spec l 0) as [->|Hl0].
        -- rewrite iterrows_falsy in H by reflexivity.
           apply (iterrows_all_missing fuel name missing m) in H; auto.
           subst. exists []. simpl. rewrite app_nil_r.
           split; [reflexivity|intros g []].
        -- rewrite iterrows_missing in H by assumption. discriminate.
    + apply (iterrows_all_missing fuel name missing (Some NaN)) in H; auto.
      subst. exists []. simpl. rewrite app_nil_r.
      split; [reflexivity|intros g []].
    + apply (iterrows_all_missing fuel name missing None) in H; auto.
      subst. exists []. simpl. rewrite app_nil_r.
      split; [reflexivity|intros g []].
  - inversion Hs as [|? ? Hs' Hall]; subst.
    assert (Hnext : below (Some (Int c)) zs) by exact Hall.
    cbn [int_cells map app] in H.
    change (map (fun p => Some (Int p)) zs) with (int_cells zs) in H.
    assert (Hskip : forall between',
               iterrows fuel name (int_cells zs ++ missing) (Some (Int c)) between'
               = Some out ->
               (forall l, last = Some (Int l) -> l <= c) ->
               exists gaps, out = (between' ++ gap_rows name gaps)%list
                 /\ forall g, In g gaps ->
                      ~ In g (c :: zs)
                      /\ (forall l, last = Some (Int l) -> l < g)
                      /\ (exists a, (last = Some (Int a) \/ In a (c :: zs)) /\ a < g)
                      /\ (exists b, In b (c :: zs) /\ g < b)).
    { intros between' H' Hle.
      destruct (IH (Some (Int c)) between' out Hs' Hnext H') as [gaps [-> Hg]].
      exists gaps. split; [reflexivity|]. intros g Hin.
      destruct (Hg g Hin) as [Hnot [Hlow [_ [b [Hb1 Hb2]]]]].
      pose proof (Hlow c eq_refl) as Hcg.
      split; [|split; [|split]].
      - intros [E|Hz]; [lia|contradiction].
      - intros l El. specialize (Hle l El). lia.
      - exists c. split; [right; left; reflexivity|exact Hcg].
      - exists b. split; [right; exact Hb1|exact Hb2]. }
    destruct (falsy last) eqn:Ef.
    + rewrite iterrows_falsy in H by exact Ef.
      apply (Hskip between H). intros l El. subst last.
      simpl in Hb. inversion Hb; assumption.
    + destruct last as [[l|]|]; try discriminate.
      simpl in Hb. inversion Hb as [|? ? Hlc Hlz]; subst.
        cbn [iterrows falsy] in H. simpl in Ef. rewrite Ef in H.
        cbn [cell_is number_eqb add1] in H.
        destruct (Z.eqb_spec c (l + 1)) as [E|Hne].
        -- apply (Hskip between H). intros l' El'. injection El' as <-. exact Hlc.
        -- destruct (while_between fuel name (Int (l + 1)) (Some (Int c)) between)
             as [between'|] eqn:Ew; [|discriminate].
           apply while_between_result in Ew. destruct Ew as [Hle ->].
           replace (l + 1 - 1) with l in H by lia.
           destruct (IH (Some (Int c)) _ out Hs' Hnext H) as [gaps [-> Hg]].
           exists (pages_between l c ++ gaps)%list. split.
           ++ unfold gap_rows. rewrite map_app, app_assoc. reflexivity.
           ++ intros g Hin. apply in_app_iff in Hin. destruct Hin as [Hin|Hin].
              ** apply In_pages_between in Hin.
                 split; [|split; [|split]].
                 --- intros [E|Hz]; [lia|].
                     pose proof (proj1 (Forall_forall _ _) Hall g Hz) as Hcz.
                     cbv beta in Hcz. lia.
                 --- intros l' El'. injection El' as <-. lia.
                 --- exists l. split; [left; reflexivity|lia].
                 --- exists c. split; [left; reflexivity|lia].
              ** destruct (Hg g Hin) as [Hnot [Hlow [_ [b [Hb1 Hb2]]]]].
                 pose proof (Hlow c eq_refl) as Hcg.
                 split; [|split; [|split]].
                 --- intros [E|Hz]; [lia|contradiction].
                 --- intros l' El'. injection El' as <-. lia.
                 --- exists c. split; [right; left; reflexivity|exact Hcg].
                 --- exists b. split; [right; exact Hb1|exact Hb2].
Qed.

Lemma Permutation_insert a l : Permutation (insert Z.leb a l) (a :: l).
Proof.
  induction l as [|y l IH]; simpl; [apply Permutation_refl|].
  destruct (a <=? y); [apply Permutation_refl|].
  apply Permutation_trans with (y :: a :: l); [|apply perm_swap].
  apply perm_skip, IH.
Qed.

Lemma Permutation_sort l : Permutation (sort Z.leb l) l.
Proof.
  induction l as [|a l IH]; simpl; [constructor|].
  apply Permutation_trans with (a :: sort Z.leb l);
    [apply Permutation_insert|apply perm_skip, IH].
Qed.

Lemma In_sort_Z z l : In z (sort Z.leb l) <-> In z l.
Proof. apply In_sort. Qed.

Lemma StronglySorted_insert a l :
  StronglySorted Z.le l -> StronglySorted Z.le (insert Z.leb a l).
Proof.
  induction 1 as [|y l Hs IH Hall]; simpl.
  - repeat constructor.
  - destruct (Z.leb_spec a y).
    + constructor; [constructor; assumption|].
      constructor; [assumption|].
      apply Forall_forall. intros z Hz.
      pose proof (proj1 (Forall_forall _ _) Hall z Hz) as Hyz. cbv beta in Hyz. lia.
    + constructor; [exact IH|].
      apply Forall_forall. intros z Hz. apply In_insert in Hz.
      destruct Hz as [->|Hz]; [lia|].
      exact (proj1 (Forall_forall _ _) Hall z Hz).
Qed.

Lemma StronglySorted_sort l : StronglySorted Z.le (sort Z.leb l).
Proof.
  induction l as [|a l IH]; simpl; [constructor|].
  apply StronglySorted_insert, IH.
Qed.

Lemma StronglySorted_NoDup l :
  StronglySorted Z.le l -> NoDup l -> StronglySorted Z.lt l.
Proof.
  induction 1 as [|a l Hs IH Hall]; intros Hnd; [constructor|].
  inversion Hnd as [|? ? Hnot Hnd']; subst.
  constructor; [exact (IH Hnd')|].
  apply Forall_forall. intros z Hz.
  pose proof (proj1 (Forall_forall _ _) Hall z Hz) as Haz. cbv beta in Haz.
  assert (a <> z) by (intros ->; contradiction). lia.
Qed.

(** The selected page numbers of a group. *)
Lemma In_group_pages (frame : list image) t g :
  In g (integers (map page_nr (filter (has_key doc_title t) frame))) <->
  exists r, In r frame /\ doc_title r = Some t /\ page_nr r = Some (Int g).
Proof.
  rewrite In_integers, in_map_iff. split.
  - intros [r [Hp Hr]]. apply In_group in Hr. destruct Hr. eauto.
  - intros [r [Hin [Ht Hp]]]. exists r. split; [exact Hp|].
    apply In_group. auto.
Qed.

(** Whenever the loop over one document ends, it has appended pages that
    are not selected and lie strictly between two selected pages. *)
Lemma document_gaps_sound fuel name group between out :
  document_gaps fuel name group between = Some out ->
  exists gaps,
    out = (between ++ gap_rows name gaps)%list
    /\ forall g, In g gaps ->
         ~ In g (integers (map page_nr group))
         /\ exists a b, In a (integers (map page_nr group))
                        /\ In b (integers (map page_nr group)) /\ a < g < b.
Proof.
  unfold document_gaps, sort_values. intros H.
  apply (iterrows_sound fuel name) in H.
  - destruct H as [gaps [-> Hg]]. exists gaps. split; [reflexivity|].
    intros g Hin. destruct (Hg g Hin) as [Hnot [_ [[a [Ha Hag]] [b [Hb Hgb]]]]].
    rewrite In_sort_Z in Hnot. split; [exact Hnot|].
    destruct Ha as [Ha|Ha]; [discriminate|].
    exists a, b. rewrite In_sort_Z in Ha, Hb. repeat split; assumption.
  - apply Forall_forall. intros c Hc. apply filter_In in Hc. tauto.
  - apply StronglySorted_sort.
  - exact I.
Qed.

Lemma each_group_sound fuel :
  forall groups between out,
    each_group fuel groups between = Some out ->
    exists rows,
      out = (between ++ rows)%list
      /\ forall name v, In (name, v) rows ->
           exists group g,
             In (name, group) groups /\ v = Int g
             /\ ~ In g (integers (map page_nr group))
             /\ exists a b, In a (integers (map page_nr group))
                            /\ In b (integers (map page_nr group)) /\ a < g < b.
Proof.
  induction groups as [|[name group] groups IH]; intros between out H.
  - simpl in H. injection H as <-. exists []. rewrite app_nil_r.
    split; [reflexivity|intros ? ? []].
  - simpl in H.
    destruct (document_gaps fuel name group between) as [between'|] eqn:Ed;
      [|discriminate].
    apply document_gaps_sound in Ed. destruct Ed as [gaps [-> Hg]].
    destruct (IH _ out H) as [rows [-> Hrows]].
    exists (gap_rows name gaps ++ rows)%list. split; [symmetry; apply app_assoc|].
    intros n v Hin. apply in_app_iff in Hin. destruct Hin as [Hin|Hin].
    + unfold gap_rows in Hin. apply in_map_iff in Hin.
      destruct Hin as [g [E Hgin]]. injection E as <- <-.
      exists group, g. split; [left; reflexivity|]. split; [reflexivity|].
      exact (Hg g Hgin).
    + destruct (Hrows n v Hin) as [group' [g [Hgr Hrest]]].
      exists group', g. split; [right; exact Hgr|exact Hrest].
Qed.

Lemma In_groupby {A} (key : A -> option string) frame name group :
  In (name, group) (groupby key frame) ->
  group = filter (has_key key name) frame.
Proof.
  unfold groupby. rewrite in_map_iff. intros [k [E _]]. congruence.
Qed.

(** X12: whenever the gap loop ends, each row of [image_between_selected]
    names a page of a document that is not selected and lies strictly
    between two selected pages of that document; it never reports a selected
    page, a page before the first or after the last selected page, or a
    missing page number. *)
Theorem image_between_selected_sound :
  forall (fuel : nat) (image_selected : list image) (out : list gap)
         (name : string) (v : number),
    image_between_selected fuel image_selected = Some out ->
    In (name, v) out ->
    exists g,
      v = Int g
      /\ (forall r, In r image_selected -> doc_title r = Some name ->
                    page_nr r <> Some (Int g))
      /\ exists ra rb a b,
           In ra image_selected /\ doc_title ra = Some name
           /\ page_nr ra = Some (Int a)
           /\ In rb image_selected /\ doc_title rb = Some name
           /\ page_nr rb = Some (Int b)
           /\ a < g < b.
Proof.
  intros fuel sel out name v H Hin. unfold image_between_selected in H.
  apply each_group_sound in H. destruct H as [rows [-> Hrows]]. simpl in Hin.
  destruct (Hrows name v Hin) as [group [g [Hgr [-> [Hnot [a [b [Ha [Hb Hab]]]]]]]]].
  apply In_groupby in Hgr. subst group.
  exists g. split; [reflexivity|]. split.
  - intros r Hr Ht Hp. apply Hnot. apply In_group_pages. eauto.
  - apply In_group_pages in Ha, Hb.
    destruct Ha as [ra [Hra [Hta Hpa]]]. destruct Hb as [rb [Hrb [Htb Hpb]]].
    exists ra, rb, a, b. repeat split; assumption || lia.
Qed.

Lemma image_between_selected_sound_witness :
  exists g,
    Int 3 = Int g
    /\ (forall r, In r (pages_of "HGB_1_001_001" [5; 1; 2]) ->
                  doc_title r = Some "HGB_1_001_001" ->
                  page_nr r <> Some (Int g))
    /\ exists ra rb a b,
         In ra (pages_of "HGB_1_001_001" [5; 1; 2])
         /\ doc_title ra = Some "HGB_1_001_001" /\ page_nr ra = Some (Int a)
         /\ In rb (pages_of "HGB_1_001_001" [5; 1; 2])
         /\ doc_title rb = Some "HGB_1_001_001" /\ page_nr rb = Some (Int b)
         /\ a < g < b.
Proof.
  apply (image_between_selected_sound 5 (pages_of "HGB_1_001_001" [5; 1; 2])
           [("HGB_1_001_001", Int 3); ("HGB_1_001_001", Int 4)]).
  - reflexivity.
  - left. reflexivity.
Defined.

Lemma gaps_in_cons a b rest :
  gaps_in (a :: b :: rest) = (pages_between a b ++ gaps_in (b :: rest))%list.
Proof. reflexivity. Qed.

(** The gaps of an ascending list of pages are the integers that are not
    in the list and lie strictly between two of its pages. *)
Lemma In_gaps_in l g :
  StronglySorted Z.lt l ->
  In g (gaps_in l) <->
  ~ In g l /\ exists a b, In a l /\ In b l /\ a < g < b.
Proof.
  induction l as [|a l IH]; intros Hs.
  - simpl. split; [intros []|]. intros [_ [a [b [[] _]]]].
  - destruct l as [|b rest].
    + simpl. split; [intros []|].
      intros [_ [x [y [[<-|[]] [[<-|[]] H]]]]]. lia.
    + inversion Hs as [|? ? Hs' Hall]; subst.
      pose proof (proj1 (Forall_forall _ _) Hall) as Ha. cbv beta in Ha.
      rewrite gaps_in_cons, in_app_iff, In_pages_between, (IH Hs'). split.
      * intros [Hab|[Hnot [x [y [Hx [Hy Hxy]]]]]].
        -- split.
           ++ intros [E|[E|Hin]]; [lia|lia|].
              inversion Hs' as [|? ? _ Hb]; subst.
              pose proof (proj1 (Forall_forall _ _) Hb g Hin) as Hbg.
              cbv beta in Hbg. lia.
           ++ exists a, b. split; [left; reflexivity|].
              split; [right; left; reflexivity|lia].
        -- pose proof (Ha x Hx). split.
           ++ intros [E|Hin]; [lia|contradiction].
           ++ exists x, y. split; [right; exact Hx|]. split; [right; exact Hy|lia].
      * intros [Hnot [x [y [Hx [Hy Hxy]]]]].
        assert (Hax : a <= x) by (destruct Hx as [<-|Hx]; [lia|specialize (Ha x Hx); lia]).
        destruct (Z.lt_trichotomy g b) as [Hlt|[->|Hgt]].
        -- left. lia.
        -- exfalso. apply Hnot. right. left. reflexivity.
        -- right. split; [intros Hin; apply Hnot; right; exact Hin|].
           exists b, y. split; [left; reflexivity|]. split; [|lia].
           destruct Hy as [<-|Hy]; [lia|exact Hy].
Qed.

Lemma int_cells_injective l l' : int_cells l = int_cells l' -> l = l'.
Proof.
  revert l'. induction l as [|x l IH]; intros [|y l'] H; simpl in H;
    try discriminate; [reflexivity|].
  injection H as -> H. f_equal. exact (IH _ H).
Qed.

Lemma group_int_cells (group : list image) :
  Forall (fun r => exists p, page_nr r = Some (Int p)) group ->
  map page_nr group = int_cells (integers (map page_nr group)).
Proof.
  induction 1 as [|r group [p Hp] _ IH]; simpl; [reflexivity|].
  rewrite Hp. simpl. f_equal. exact IH.
Qed.

(** One document whose records all have a page number that is not 0, no
    page number twice, given fuel for the largest page. *)
Lemma document_gaps_distinct fuel name group between :
  Forall (fun r => exists p, page_nr r = Some (Int p) /\ 0 < p <= Z.of_nat fuel)
         group ->
  NoDup (map page_nr group) ->
  document_gaps fuel name group between
  = Some (between
          ++ gap_rows name
               (gaps_in (sort Z.leb (integers (map page_nr group)))))%list.
Proof.
  intros Hall Hnd.
  assert (Hcells : map page_nr group = int_cells (integers (map page_nr group))).
  { apply group_int_cells. apply Forall_forall. intros r Hr.
    destruct (proj1 (Forall_forall _ _) Hall r Hr) as [p [Hp _]]. eauto. }
  apply (document_gaps_ascending fuel name group
           (integers (map page_nr group))).
  - exact Hcells.
  - apply Permutation_sym, Permutation_sort.
  - apply StronglySorted_NoDup; [apply StronglySorted_sort|].
    apply (Permutation_NoDup (Permutation_sym (Permutation_sort _))).
    rewrite Hcells in Hnd. unfold int_cells in Hnd.
    exact (NoDup_map_inv _ _ Hnd).
  - apply Forall_forall. intros p Hp. rewrite In_sort_Z, In_integers in Hp.
    apply in_map_iff in Hp. destruct Hp as [r [Hr Hin]].
    destruct (proj1 (Forall_forall _ _) Hall r Hin) as [q [Hq Hb]].
    rewrite Hq in Hr. injection Hr as <-. exact Hb.
Qed.

Lemma each_group_distinct fuel :
  forall groups between,
    Forall (fun g =>
              Forall (fun r => exists p, page_nr r = Some (Int p)
                                         /\ 0 < p <= Z.of_nat fuel) (snd g)
              /\ NoDup (map page_nr (snd g))) groups ->
    each_group fuel groups between
    = Some (between ++ flat_map document_rows groups)%list.
Proof.
  induction groups as [|[name group] groups IH]; intros between Hall; simpl.
  - rewrite app_nil_r. reflexivity.
  - inversion Hall as [|? ? [Hg Hnd] Hrest]; subst. simpl in Hg, Hnd.
    rewrite (document_gaps_distinct fuel name group between Hg Hnd).
    rewrite (IH _ Hrest). unfold document_rows at 2. simpl.
    rewrite app_assoc. reflexivity.
Qed.

(** X13: when every selected record with a document title has a page
    number that is not 0 and no document has a page selected twice, the gap
    loop ends (given fuel for the largest page number) and
    [image_between_selected] holds exactly the pages that are not selected
    and lie strictly between two selected pages of their document. *)
Theorem image_between_selected_exact :
  forall (fuel : nat) (image_selected : list image),
    (forall r, In r image_selected -> doc_title r <> None ->
               exists p, page_nr r = Some (Int p) /\ 0 < p <= Z.of_nat fuel) ->
    (forall t, NoDup (map page_nr
                        (filter (has_key doc_title t) image_selected))) ->
    exists out,
      image_between_selected fuel image_selected = Some out
      /\ forall name g,
           In (name, Int g) out <->
           (forall r, In r image_selected -> doc_title r = Some name ->
                      page_nr r <> Some (Int g))
           /\ exists ra rb a b,
                In ra image_selected /\ doc_title ra = Some name
                /\ page_nr ra = Some (Int a)
                /\ In rb image_selected /\ doc_title rb = Some name
                /\ page_nr rb = Some (Int b)
                /\ a < g < b.
Proof.
  intros fuel sel Hpages Hnd.
  exists (flat_map document_rows (groupby doc_title sel)).
  assert (Hgroups :
            Forall (fun g =>
              Forall (fun r => exists p, page_nr r = Some (Int p)
                                         /\ 0 < p <= Z.of_nat fuel) (snd g)
              /\ NoDup (map page_nr (snd g))) (groupby doc_title sel)).
  { apply Forall_forall. intros [name group] Hin.
    apply In_groupby in Hin. subst group. simpl. split; [|apply Hnd].
    apply Forall_forall. intros r Hr. apply In_group in Hr.
    destruct Hr as [Hr Ht]. apply Hpages; [exact Hr|congruence]. }
  split.
  - unfold image_between_selected.
    rewrite (each_group_distinct fuel _ [] Hgroups). reflexivity.
  - intros name g.
    assert (Hsorted : forall t,
               StronglySorted Z.lt
                 (sort Z.leb (integers (map page_nr
                                          (filter (has_key doc_title t) sel))))).
    { intros t. apply StronglySorted_NoDup; [apply StronglySorted_sort|].
      apply (Permutation_NoDup (Permutation_sym (Permutation_sort _))).
      assert (Hc : map page_nr (filter (has_key doc_title t) sel)
                   = int_cells (integers (map page_nr
                                            (filter (has_key doc_title t) sel)))).
      { apply group_int_cells. apply Forall_forall. intros r Hr.
        apply In_group in Hr. destruct Hr as [Hr Ht].
        destruct (Hpages r Hr) as [p [Hp _]]; [congruence|]. eauto. }
      specialize (Hnd t). rewrite Hc in Hnd. unfold int_cells in Hnd.
      exact (NoDup_map_inv _ _ Hnd). }
    assert (Hrow : In (name, Int g) (flat_map document_rows (groupby doc_title sel))
                   <-> In (Some name) (map doc_title sel)
                       /\ In g (gaps_in (sort Z.leb
                            (integers (map page_nr
                               (filter (has_key doc_title name) sel)))))).
    { rewrite in_flat_map. split.
      - intros [[n group] [Hin Hrow]]. unfold document_rows, gap_rows in Hrow.
        simpl in Hrow. apply in_map_iff in Hrow.
        destruct Hrow as [g' [E Hg']]. injection E as -> ->.
        pose proof (In_groupby _ _ _ _ Hin) as ->. split; [|exact Hg'].
        unfold groupby in Hin. apply in_map_iff in Hin.
        destruct Hin as [k [E Hk]]. injection E as ->.
        apply In_group_keys, Hk.
      - intros [Hkey Hg'].
        exists (name, filter (has_key doc_title name) sel). split.
        + unfold groupby. apply in_map_iff. exists name.
          split; [reflexivity|apply In_group_keys, Hkey].
        + unfold document_rows, gap_rows. simpl. apply in_map_iff.
          exists g. auto. }
    rewrite Hrow, (In_gaps_in _ g (Hsorted name)). split.
    + intros [_ [Hnot [a [b [Ha [Hb Hab]]]]]].
      rewrite In_sort_Z, In_group_pages in Hnot, Ha, Hb. split.
      * intros r Hr Ht Hp. apply Hnot. eauto.
      * destruct Ha as [ra [Hra [Hta Hpa]]]. destruct Hb as [rb [Hrb [Htb Hpb]]].
        exists ra, rb, a, b. repeat split; assumption || lia.
    + intros [Hnot [ra [rb [a [b [Hra [Hta [Hpa [Hrb [Htb [Hpb Hab]]]]]]]]]]].
      split; [apply in_map_iff; exists ra; auto|]. split.
      * rewrite In_sort_Z, In_group_pages. intros [r [Hr [Ht Hp]]].
        exact (Hnot r Hr Ht Hp).
      * exists a, b. rewrite !In_sort_Z, !In_group_pages.
        split; [eauto|]. split; [eauto|lia].
Qed.

Lemma NoDup_map_filter {A B} (f : A -> B) (keep : A -> bool) l :
  NoDup (map f l) -> NoDup (map f (filter keep l)).
Proof.
  induction l as [|x l IH]; simpl; intros H; [constructor|].
  inversion H as [|? ? Hnot Hnd]; subst.
  destruct (keep x); [|exact (IH Hnd)].
  simpl. constructor; [|exact (IH Hnd)].
  intros Hin. apply Hnot. apply in_map_iff in Hin.
  destruct Hin as [y [E Hy]]. apply filter_In in Hy.
  apply in_map_iff. exists y. tauto.
Qed.

Lemma image_between_selected_exact_witness :
  exists out,
    image_between_selected 5 (pages_of "HGB_1_001_001" [5; 1; 2]) = Some out
    /\ forall name g,
         In (name, Int g) out <->
         (forall r, In r (pages_of "HGB_1_001_001" [5; 1; 2]) ->
                    doc_title r = Some name -> page_nr r <> Some (Int g))
         /\ exists ra rb a b,
              In ra (pages_of "HGB_1_001_001" [5; 1; 2])
              /\ doc_title ra = Some name /\ page_nr ra = Some (Int a)
              /\ In rb (pages_of "HGB_1_001_001" [5; 1; 2])
              /\ doc_title rb = Some name /\ page_nr rb = Some (Int b)
              /\ a < g < b.
Proof.
  apply (image_between_selected_exact 5 (pages_of "HGB_1_001_001" [5; 1; 2])).
  - intros r Hr _. simpl in Hr.
    destruct Hr as [<-|[<-|[<-|[]]]]; eexists; (split; [reflexivity|lia]).
  - intros t. apply NoDup_map_filter. simpl.
    repeat (constructor; [simpl; intuition discriminate|]). constructor.
Defined.

(** ** Selections without page numbers or document titles *)

Lemma iterrows_all_none fuel name :
  forall cells between,
    Forall (fun c => c = None) cells ->
    iterrows fuel name cells None between = Some between.
Proof.
  induction cells as [|c cells IH]; intros between H; [reflexivity|].
  inversion H as [|? ? -> Hrest]; subst. simpl. exact (IH between Hrest).
Qed.

Lemma sort_values_all_none cells :
  Forall (fun c => c = None) cells -> sort_values cells = cells.
Proof.
  intros H. unfold sort_values.
  assert (Hints : integers cells = [])
    by (induction H as [|c cells -> _ IH]; simpl; [reflexivity|exact IH]).
  rewrite Hints. simpl.
  induction H as [|c cells -> _ IH]; simpl; [reflexivity|].
  f_equal. apply IH.
  destruct cells as [|c cells]; [reflexivity|]. simpl in Hints.
  destruct c as [[z|]|]; [discriminate|exact Hints|exact Hints].
Qed.

Lemma each_group_all_none fuel :
  forall groups between,
    Forall (fun g => Forall (fun r => page_nr r = None) (snd g)) groups ->
    each_group fuel groups between = Some between.
Proof.
  induction groups as [|[name group] groups IH]; intros between H; [reflexivity|].
  inversion H as [|? ? Hg Hrest]; subst. simpl in Hg. simpl.
  unfold document_gaps.
  assert (Hcells : Forall (fun c => c = None) (map page_nr group)).
  { apply Forall_forall. intros c Hc. apply in_map_iff in Hc.
    destruct Hc as [r [<- Hr]]. exact (proj1 (Forall_forall _ _) Hg r Hr). }
  rewrite (sort_values_all_none _ Hcells), (iterrows_all_none fuel name _ _ Hcells).
  exact (IH between Hrest).
Qed.

Lemma page_column_all_none values :
  Forall (fun v => v = None) values ->
  Forall (fun c => c = None) (page_column values).
Proof.
  intros H. unfold page_column.
  replace (forallb (fun v : option Z => match v with
                                        | Some _ => false
                                        | None => true
                                        end) values) with true.
  - apply Forall_forall. intros c Hc. apply in_map_iff in Hc.
    destruct Hc as [v [E _]]. congruence.
  - symmetry. apply forallb_forall. intros v Hv.
    rewrite (proj1 (Forall_forall _ _) H v Hv). reflexivity.
Qed.

Lemma annotate_In filenames r :
  In r (annotate filenames) ->
  In (filename r) filenames
  /\ doc_title r = get_doc_title (filename r)
  /\ In (page_nr r) (page_column (map get_page_nr filenames)).
Proof.
  unfold annotate. rewrite in_map_iff. intros [[f c] [<- Hin]]. simpl.
  split; [exact (in_combine_l _ _ _ _ Hin)|].
  split; [reflexivity|exact (in_combine_r _ _ _ _ Hin)].
Qed.

(** X14: when no selected filename carries a page number, the page
    column holds [None] only and the gap loop ends without a gap, whatever
    documents the filenames belong to. *)
Theorem no_page_numbers_no_gaps :
  forall (fuel : nat) (filenames : list string),
    Forall (fun f => get_page_nr f = None) filenames ->
    image_between_selected fuel (annotate filenames) = Some [].
Proof.
  intros fuel filenames H. unfold image_between_selected.
  apply each_group_all_none. apply Forall_forall. intros [name group] Hin.
  apply In_groupby in Hin. subst group. simpl.
  apply Forall_forall. intros r Hr. apply filter_In in Hr. destruct Hr as [Hr _].
  apply annotate_In in Hr. destruct Hr as [_ [_ Hc]].
  assert (Hnone : Forall (fun c => c = None)
                         (page_column (map get_page_nr filenames))).
  { apply page_column_all_none. apply Forall_forall. intros v Hv.
    apply in_map_iff in Hv. destruct Hv as [f [<- Hf]].
    exact (proj1 (Forall_forall _ _) H f Hf). }
  exact (proj1 (Forall_forall _ _) Hnone _ Hc).
Qed.

Lemma no_page_numbers_no_gaps_witness :
  image_between_selected 0 (annotate ["HGB_1_001_001.png"; "HGB_1_001_001.tif"])
  = Some [].
Proof.
  apply (no_page_numbers_no_gaps 0 ["HGB_1_001_001.png"; "HGB_1_001_001.tif"]).
  repeat constructor.
Defined.

Lemma group_keys_none keys :
  Forall (fun k => k = None) keys -> group_keys keys = [].
Proof.
  intros H. unfold group_keys.
  replace (present keys) with (@nil string); [reflexivity|].
  induction H as [|k keys -> _ IH]; simpl; [reflexivity|exact IH].
Qed.

(** X15: when no filename carries a document title, nothing is grouped:
    the table of page counts is empty, no record is a last page, and the gap
    loop ends without a gap. *)
Theorem no_document_titles :
  forall (fuel : nat) (filenames : list string) (image_selected : list image),
    Forall (fun f => get_doc_title f = None) filenames ->
    n_pages (annotate filenames) = []
    /\ image_selected_last (n_pages (annotate filenames)) image_selected = []
    /\ image_between_selected fuel (annotate filenames) = Some [].
Proof.
  intros fuel filenames sel H.
  assert (Hkeys : group_keys (map doc_title (annotate filenames)) = []).
  { apply group_keys_none. apply Forall_forall. intros k Hk.
    apply in_map_iff in Hk. destruct Hk as [r [<- Hr]].
    apply annotate_In in Hr. destruct Hr as [Hf [-> _]].
    exact (proj1 (Forall_forall _ _) H _ Hf). }
  assert (Htable : n_pages (annotate filenames) = [])
    by (rewrite n_pages_groups, Hkeys; reflexivity).
  split; [exact Htable|]. split.
  - rewrite Htable. unfold image_selected_last.
    induction sel as [|r sel IH]; simpl; [reflexivity|].
    replace (nr_of_pages [] r) with (@None Z)
      by (unfold nr_of_pages; destruct (doc_title r); reflexivity).
    destruct (page_nr r) as [[p|]|]; exact IH.
  - unfold image_between_selected, groupby. rewrite Hkeys. reflexivity.
Qed.

Lemma no_document_titles_witness :
  n_pages (annotate ["scan_001.jpg"; "noise.png"]) = []
  /\ image_selected_last (n_pages (annotate ["scan_001.jpg"; "noise.png"]))
       (annotate ["scan_001.jpg"]) = []
  /\ image_between_selected 0 (annotate ["scan_001.jpg"; "noise.png"]) = Some [].
Proof.
  apply (no_document_titles 0 ["scan_001.jpg"; "noise.png"]
           (annotate ["scan_001.jpg"])).
  repeat constructor.
Defined.

(** ** Documents one by one *)

Lemma while_between_acc fuel :
  forall name n c between,
    while_between fuel name n c between
    = option_map (app between) (while_between fuel name n c []).
Proof.
  induction fuel as [|fuel IH]; intros name n c between; simpl; [reflexivity|].
  destruct (cell_is c n).
  - simpl. rewrite app_nil_r. reflexivity.
  - rewrite (IH name (add1 n) c (between ++ [(name, n)])%list).
    rewrite (IH name (add1 n) c [(name, n)]).
    destruct (while_between fuel name (add1 n) c []) as [rows|]; simpl;
      [|reflexivity].
    rewrite <- app_assoc. reflexivity.
Qed.

Lemma iterrows_acc fuel name :
  forall cells last between,
    iterrows fuel name cells last between
    = option_map (app between) (iterrows fuel name cells last []).
Proof.
  induction cells as [|c cells IH]; intros last between.
  - simpl. rewrite app_nil_r. reflexivity.
  - cbn [iterrows]. destruct last as [l|]; [|apply IH].
    destruct (falsy (Some l)); [apply IH|].
    destruct (cell_is c (add1 l)); [apply IH|].
    rewrite (while_between_acc fuel name (add1 l) c between).
    destruct (while_between fuel name (add1 l) c []) as [rows|]; simpl;
      [|reflexivity].
    rewrite (IH c (between ++ rows)%list), (IH c rows).
    destruct (iterrows fuel name cells c []) as [rest|]; simpl; [|reflexivity].
    rewrite app_assoc. reflexivity.
Qed.

Lemma document_gaps_acc fuel name group between :
  document_gaps fuel name group between
  = option_map (app between) (document_gaps fuel name group []).
Proof. unfold document_gaps. apply iterrows_acc. Qed.

Lemma each_group_concat fuel :
  forall groups between out,
    each_group fuel groups between = Some out <->
    exists per_document,
      Forall2 (fun g rows => document_gaps fuel (fst g) (snd g) [] = Some rows)
              groups per_document
      /\ out = (between ++ List.concat per_document)%list.
Proof.
  induction groups as [|[name group] groups IH]; intros between out; simpl.
  - split.
    + intros H. injection H as <-. exists []. split; [constructor|].
      simpl. rewrite app_nil_r. reflexivity.
    + intros [per [Hf ->]]. inversion Hf. simpl. rewrite app_nil_r. reflexivity.
  - rewrite (document_gaps_acc fuel name group between).
    destruct (document_gaps fuel name group []) as [rows|] eqn:Ed; simpl.
    + rewrite IH. split.
      * intros [per [Hf ->]]. exists (rows :: per). split.
        -- constructor; [exact Ed|exact Hf].
        -- simpl. rewrite app_assoc. reflexivity.
      * intros [per [Hf ->]]. inversion Hf as [|? rows' ? per' Hr Hrest]; subst.
        simpl in Hr. rewrite Ed in Hr. injection Hr as <-.
        exists per'. split; [exact Hrest|]. simpl. rewrite app_assoc. reflexivity.
    + split; [discriminate|].
      intros [per [Hf _]]. inversion Hf as [|? rows' ? per' Hr Hrest]; subst.
      simpl in Hr. rewrite Ed in Hr. discriminate.
Qed.

(** X16: the documents do not influence each other: [image_between_selected]
    is returned exactly when the loop ends for every document taken alone,
    and it is then the rows of the documents one after the other, in the
    ascending order of their titles. *)
Theorem image_between_selected_per_document :
  forall (fuel : nat) (image_selected : list image) (out : list gap),
    image_between_selected fuel image_selected = Some out <->
    exists per_document,
      Forall2 (fun g rows => document_gaps fuel (fst g) (snd g) [] = Some rows)
              (groupby doc_title image_selected) per_document
      /\ out = List.concat per_document.
Proof.
  intros fuel sel out. unfold image_between_selected.
  apply (each_group_concat fuel (groupby doc_title sel) [] out).
Qed.

(** ** Validation *)

Lemma existsb_eqb_In f l : existsb (String.eqb f) l = true <-> In f l.
Proof.
  rewrite existsb_exists. split.
  - intros [x [Hx E]]. apply String.eqb_eq in E. subst. exact Hx.
  - intros H. exists f. split; [exact H|apply String.eqb_refl].
Qed.

Lemma existsb_eqb_not_In f l : existsb (String.eqb f) l = false <-> ~ In f l.
Proof.
  rewrite <- existsb_eqb_In. destruct (existsb (String.eqb f) l); split;
    intros H; congruence || (exfalso; apply H; reflexivity) || reflexivity.
Qed.

(** X17: against the annotated selection and a ground truth with a
    [filename] column, [validate_result] files a filename under one of four
    outcomes by its membership in the selected filenames and in the ground
    truth; without that column it returns [None]. *)
Theorem validate_result_table :
  forall (f : string) (selected truth : list string),
    (In f selected -> In f truth ->
     validate_result f (annotate selected) (Some truth) = Some "correct selected")
    /\ (In f selected -> ~ In f truth ->
        validate_result f (annotate selected) (Some truth) = Some "wrong selected")
    /\ (~ In f selected -> In f truth ->
        validate_result f (annotate selected) (Some truth)
        = Some "wrong not selected")
    /\ (~ In f selected -> ~ In f truth ->
        validate_result f (annotate selected) (Some truth)
        = Some "correct not selected")
    /\ validate_result f (annotate selected) None = None.
Proof.
  intros f selected truth. unfold validate_result, filename_column.
  rewrite (proj1 (annotate_rows selected)).
  repeat split; intros;
    repeat match goal with
    | H : In _ _ |- _ => apply existsb_eqb_In in H; rewrite H; clear H
    | H : ~ In _ _ |- _ => apply existsb_eqb_not_In in H; rewrite H; clear H
    end; reflexivity.
Qed.

Lemma validate_result_table_witness :
  validate_result "b.jpg" (annotate ["a.jpg"; "b.jpg"]) (Some ["c.jpg"])
  = Some "wrong selected".
Proof.
  destruct (validate_result_table "b.jpg" ["a.jpg"; "b.jpg"] ["c.jpg"])
    as [_ [H _]].
  apply H.
  - right. left. reflexivity.
  - intros [E|[]]. discriminate E.
Defined.

(** ** More on the sampler *)

Lemma all_distinct_NoDup {A} (eqb : A -> A -> bool) l :
  (forall x, eqb x x = true) -> all_distinct eqb l = true -> NoDup l.
Proof.
  intros Hrefl. induction l as [|x l IH]; simpl; intros H; [constructor|].
  apply andb_true_iff in H. destruct H as [Hx Hl].
  constructor; [|exact (IH Hl)].
  intros Hin. apply negb_true_iff in Hx.
  assert (existsb (eqb x) l = true)
    by (apply existsb_exists; exists x; split; [exact Hin|apply Hrefl]).
  congruence.
Qed.

Lemma nonneg_positions n idx :
  Forall (fun i => 0 <= i < Z.of_nat n) idx ->
  map (position n) idx = map (fun i => Some (Z.to_nat i)) idx.
Proof.
  induction 1 as [|i idx Hi _ IH]; simpl; [reflexivity|].
  rewrite (position_nonneg n i Hi), IH. reflexivity.
Qed.

Lemma NoDup_nonneg_positions n idx :
  Forall (fun i => 0 <= i < Z.of_nat n) idx -> NoDup idx ->
  NoDup (map (position n) idx).
Proof.
  intros Hb Hnd. rewrite (nonneg_positions n idx Hb).
  induction Hnd as [|i idx Hnot Hnd IH]; simpl; [constructor|].
  inversion Hb as [|? ? Hi Hb']; subst.
  constructor; [|exact (IH Hb')].
  intros Hin. apply in_map_iff in Hin. destruct Hin as [j [E Hj]].
  injection E as E.
  pose proof (proj1 (Forall_forall _ _) Hb' j Hj) as Hjb. cbv beta in Hjb.
  assert (j = i) by lia. subst. contradiction.
Qed.

Lemma nonneg_in_bounds n idx :
  Forall (fun i => 0 <= i < Z.of_nat n) idx ->
  Forall (fun i => - Z.of_nat n <= i < Z.of_nat n) idx.
Proof.
  intros H. apply Forall_forall. intros i Hi.
  pose proof (proj1 (Forall_forall _ _) H i Hi) as Hb. cbv beta in Hb. lia.
Qed.

(** X18: when the frame has at least 1000 rows, none twice, and
    [random.sample] keeps its contract (1000 positions of the frame, none
    twice), each of the three samples without a guard has 1000 rows of the
    frame, none twice. *)
Theorem sample_without_replacement :
  forall (rng : Type) (choose : rng -> nat -> nat -> list Z * rng) (g : rng)
         (A : Type) (frame : list A),
    (sample_size <= List.length frame)%nat ->
    NoDup frame ->
    Forall (fun i => 0 <= i < Z.of_nat (List.length frame))
           (fst (choose g (List.length frame) sample_size)) ->
    NoDup (fst (choose g (List.length frame) sample_size)) ->
    List.length (fst (choose g (List.length frame) sample_size)) = sample_size ->
    exists rows,
      image_selected_sample choose g frame
      = Ok (rows, snd (choose g (List.length frame) sample_size))
      /\ image_sample choose g frame
         = Ok (rows, snd (choose g (List.length frame) sample_size))
      /\ user_image_selected_sample choose g frame
         = Ok (rows, snd (choose g (List.length frame) sample_size))
      /\ List.length rows = sample_size
      /\ NoDup rows
      /\ incl rows frame.
Proof.
  intros rng choose g A frame Hn Hframe Hb Hnd Hlen.
  destruct (sample_rows_drawn choose g frame sample_size Hn
              (nonneg_in_bounds _ _ Hb)) as [rows [Hs Hrows]].
  exists rows.
  unfold image_selected_sample, image_sample, user_image_selected_sample.
  repeat (split; [exact Hs|]). split; [|split].
  - rewrite <- (Forall2_length Hrows). exact Hlen.
  - exact (rows_NoDup frame _ rows Hframe (NoDup_nonneg_positions _ _ Hb Hnd) Hrows).
  - exact (rows_subset frame _ rows Hrows).
Qed.

Lemma nonneg_Forall n idx :
  forallb (fun i => (0 <=? i) && (i <? Z.of_nat n)) idx = true ->
  Forall (fun i => 0 <= i < Z.of_nat n) idx.
Proof.
  intros H. apply Forall_forall. intros i Hi.
  pose proof (proj1 (forallb_forall _ _) H i Hi) as Hb. cbv beta in Hb.
  apply andb_true_iff in Hb. lia.
Qed.

Lemma sample_without_replacement_witness :
  exists rows,
    image_selected_sample descending tt (seq 0 1001) = Ok (rows, tt)
    /\ List.length rows = 1000%nat
    /\ NoDup rows
    /\ incl rows (seq 0 1001).
Proof.
  destruct (sample_without_replacement unit descending tt nat (seq 0 1001))
    as [rows [Hs [_ [_ [Hlen [Hnd Hincl]]]]]].
  - apply Nat.leb_le. vm_compute. reflexivity.
  - apply seq_NoDup.
  - apply (nonneg_Forall 1001). vm_compute. reflexivity.
  - apply (all_distinct_NoDup Z.eqb); [apply Z.eqb_refl|].
    vm_compute. reflexivity.
  - vm_compute. reflexivity.
  - exists rows. split; [exact Hs|]. split; [exact Hlen|].
    split; [exact Hnd|exact Hincl].
Defined.

Lemma nth_error_seq {A} (frame : list A) :
  map (nth_error frame) (seq 0 (List.length frame)) = map Some frame.
Proof.
  induction frame as [|x frame IH]; simpl; [reflexivity|].
  f_equal. rewrite <- seq_shift, map_map. exact IH.
Qed.

Lemma rows_of_positions {A} (frame : list A) ps rows :
  Forall2 (fun p r => nth_error frame p = Some r) ps rows ->
  map Some rows = map (nth_error frame) ps.
Proof.
  induction 1 as [|p r ps rows Hr _ IH]; simpl; [reflexivity|].
  rewrite Hr, IH. reflexivity.
Qed.

Lemma map_Some_injective {A} (l l' : list A) : map Some l = map Some l' -> l = l'.
Proof.
  revert l'. induction l as [|x l IH]; intros [|y l'] H; simpl in H;
    try discriminate; [reflexivity|].
  injection H as -> H. f_equal. exact (IH _ H).
Qed.

(** Rows taken once at every position of the frame are the frame in
    another order. *)
Lemma all_positions_Permutation {A} (frame : list A) idx rows :
  Forall (fun i => 0 <= i < Z.of_nat (List.length frame)) idx ->
  NoDup idx -> List.length idx = List.length frame ->
  Forall2 (fun i r => row_at frame i = Some r) idx rows ->
  Permutation rows frame.
Proof.
  intros Hb Hnd Hlen Hrows.
  pose proof (rows_at_nonneg frame idx rows Hb Hrows) as Hps.
  assert (Hperm : Permutation (map Z.to_nat idx) (seq 0 (List.length frame))).
  { apply NoDup_Permutation_bis.
    - pose proof (NoDup_nonneg_positions _ _ Hb Hnd) as H.
      rewrite (nonneg_positions _ _ Hb) in H.
      rewrite <- (map_map Z.to_nat Some) in H.
      exact (NoDup_map_inv _ _ H).
    - rewrite length_seq, length_map. lia.
    - intros p Hp. apply in_map_iff in Hp. destruct Hp as [i [<- Hi]].
      pose proof (proj1 (Forall_forall _ _) Hb i Hi) as Hib. cbv beta in Hib.
      apply in_seq. lia. }
  apply (Permutation_map (nth_error frame)) in Hperm.
  rewrite nth_error_seq, <- (rows_of_positions frame _ rows Hps) in Hperm.
  apply Permutation_sym in Hperm.
  destruct (Permutation_map_inv _ _ Hperm) as [l [E Hp]].
  apply map_Some_injective in E. subst l. exact Hp.
Qed.

(** X19: with exactly 1000 rows and [random.sample] keeping its contract,
    each of the three samples without a guard is the whole frame in the
    order drawn: every row once.  The sample of the gap rows is the frame
    itself and leaves the generator as it was. *)
Theorem sample_of_exactly_1000 :
  forall (rng : Type) (choose : rng -> nat -> nat -> list Z * rng) (g : rng)
         (A : Type) (frame : list A),
    List.length frame = sample_size ->
    Forall (fun i => 0 <= i < Z.of_nat (List.length frame))
           (fst (choose g (List.length frame) sample_size)) ->
    NoDup (fst (choose g (List.length frame) sample_size)) ->
    List.length (fst (choose g (List.length frame) sample_size)) = sample_size ->
    image_between_selected_sample choose g frame = Ok (frame, g)
    /\ exists rows,
         image_selected_sample choose g frame
         = Ok (rows, snd (choose g (List.length frame) sample_size))
         /\ image_sample choose g frame
            = Ok (rows, snd (choose g (List.length frame) sample_size))
         /\ user_image_selected_sample choose g frame
            = Ok (rows, snd (choose g (List.length frame) sample_size))
         /\ Permutation rows frame.
Proof.
  intros rng choose g A frame Hn Hb Hnd Hlen. split.
  - unfold image_between_selected_sample. rewrite Hn.
    rewrite Nat.ltb_irrefl. reflexivity.
  - destruct (sample_rows_drawn choose g frame sample_size)
      as [rows [Hs Hrows]]; [lia|exact (nonneg_in_bounds _ _ Hb)|].
    exists rows.
    unfold image_selected_sample, image_sample, user_image_selected_sample.
    repeat (split; [exact Hs|]).
    apply (all_positions_Permutation frame _ rows Hb Hnd); [lia|exact Hrows].
Qed.

Lemma sample_of_exactly_1000_witness :
  image_between_selected_sample descending tt (seq 0 1000)
  = Ok (seq 0 1000, tt)
  /\ exists rows,
       image_selected_sample descending tt (seq 0 1000) = Ok (rows, tt)
       /\ Permutation rows (seq 0 1000).
Proof.
  destruct (sample_of_exactly_1000 unit descending tt nat (seq 0 1000))
    as [Hgap [rows [Hs [_ [_ Hperm]]]]].
  - vm_compute. reflexivity.
  - apply (nonneg_Forall 1000). vm_compute. reflexivity.
  - apply (all_distinct_NoDup Z.eqb); [apply Z.eqb_refl|].
    vm_compute. reflexivity.
  - vm_compute. reflexivity.
  - split; [exact Hgap|]. exists rows. split; [exact Hs|exact Hperm].
Defined.
